(** * The AI telephone game (telephonedenisaSTREAMLIT.py)

    A shallow embedding of the Streamlit script that drives the
    prompt -> image -> description -> prompt loop, and the properties of
    one run of that loop: the cycle records kept in the session state,
    the per-run log file, the image files, and what happens when one of
    the two remote calls fails.

    The script is stateful (Streamlit session state, files, widgets,
    the application logger) and may raise, so it is written in a small
    state-and-exception monad over an explicit [World].  The two remote
    services and the clock are an environment [Env] of oracles indexed
    by the number of calls made so far. *)

From Stdlib Require Import ZArith Ascii String DecimalString DecimalZ.
From stdpp Require Import base option list strings gmap.

Local Open Scope string_scope.

(** ** Python values that the script handles *)

(** A decoded picture ([PIL.Image]); [Image.save] writes it to a file. *)
Definition Image := string.

(** One entry of [st.session_state.game_state['cycles']] (the dict
    [cycle_data] of [main]). *)
Record CycleData := {
  cycle : nat;
  prompt : string;
  image : Image;
  image_path : string;
  description : string
}.

(** [st.session_state.game_state]. *)
Record GameState := {
  running : bool;
  cycles : list CycleData;
  log_path : option string
}.

(** The value the module installs when the session has no game state,
    and to which the clear button resets it. *)
Definition fresh_game_state : GameState :=
  {| running := false; cycles := []; log_path := None |}.

Inductive Level := INFO | ERROR.

(** What the page shows: [st.error], [st.warning] and the text of the
    [status_text] placeholder.  The progress bar, which only takes a
    float, is left out. *)
Inductive UiEvent :=
| StError (msg : string)
| StWarning (msg : string)
| StatusText (msg : string).

(** Exceptions.  [RerunException] is what [st.rerun()] raises; it derives
    from [BaseException], so an [except Exception] does not catch it. *)
Inductive exn :=
| Exception (msg : string)
| TypeError (msg : string)
| ValueError (msg : string)
| RerunException.

Definition is_Exception (e : exn) : bool :=
  match e with RerunException => false | _ => true end.

(** [str(e)] *)
Definition exn_str (e : exn) : string :=
  match e with
  | Exception m | TypeError m | ValueError m => m
  | RerunException => ""
  end.

(** ** The environment *)

(** Outcome of [client.images.generate]: the URL of the picture
    ([response.data[0].url]), or an exception. *)
Inductive GenResult :=
| GenOk (image_url : string)
| GenRaise (msg : string).

(** Outcome of downloading and decoding the picture ([requests.get],
    [Image.open]). *)
Inductive GetResult :=
| GetOk (img : Image)
| GetRaise (msg : string).

(** Outcome of [client.chat.completions.create]; the message content of
    a response may be [None]. *)
Inductive AnaResult :=
| AnaOk (content : option string)
| AnaRaise (msg : string).

Record Env := {
  (** the module constant [API_KEY] *)
  API_KEY : string;
  (** [images_generate n p]: the [n]-th generation request, for prompt [p] *)
  images_generate : nat -> string -> GenResult;
  (** [requests_get n u]: the download of URL [u] that follows the
      [n]-th generation request, and its decoding *)
  requests_get : nat -> string -> GetResult;
  (** [chat_create n u]: the [n]-th analysis request, for image URL [u] *)
  chat_create : nat -> string -> AnaResult;
  (** [time_time n]: [int(time.time())] at the [n]-th event of the
      clock, an event being a reading or the start of a pause
      ([time.sleep]) *)
  time_time : nat -> Z;
  (** ['%Y-%m-%d %H:%M:%S'] rendering of a clock reading *)
  strftime : Z -> string
}.

(** ** The world *)

Record World := {
  (** [st.session_state.api_key], when set *)
  ss_api_key : option string;
  game_state : GameState;
  (** the files other than the application log, by path; directories
      are not represented, so [os.makedirs(..., exist_ok=True)] changes
      nothing *)
  fs : gmap string string;
  (** the application log: the records handed to [logger], oldest
      first, which its handlers append to the file
      [telephone_game_app.log] and to the console *)
  app_log : list (Level * string);
  ui : list UiEvent;
  gen_calls : nat;
  ana_calls : nat;
  clock_reads : nat
}.

Definition set_ss_api_key (k : option string) (w : World) : World :=
  {| ss_api_key := k; game_state := game_state w; fs := fs w;
     app_log := app_log w; ui := ui w; gen_calls := gen_calls w;
     ana_calls := ana_calls w; clock_reads := clock_reads w |}.

Definition set_game_state (g : GameState) (w : World) : World :=
  {| ss_api_key := ss_api_key w; game_state := g; fs := fs w;
     app_log := app_log w; ui := ui w; gen_calls := gen_calls w;
     ana_calls := ana_calls w; clock_reads := clock_reads w |}.

Definition set_fs (f : gmap string string) (w : World) : World :=
  {| ss_api_key := ss_api_key w; game_state := game_state w; fs := f;
     app_log := app_log w; ui := ui w; gen_calls := gen_calls w;
     ana_calls := ana_calls w; clock_reads := clock_reads w |}.

Definition set_app_log (l : list (Level * string)) (w : World) : World :=
  {| ss_api_key := ss_api_key w; game_state := game_state w; fs := fs w;
     app_log := l; ui := ui w; gen_calls := gen_calls w;
     ana_calls := ana_calls w; clock_reads := clock_reads w |}.

Definition set_ui (u : list UiEvent) (w : World) : World :=
  {| ss_api_key := ss_api_key w; game_state := game_state w; fs := fs w;
     app_log := app_log w; ui := u; gen_calls := gen_calls w;
     ana_calls := ana_calls w; clock_reads := clock_reads w |}.

Definition set_gen_calls (n : nat) (w : World) : World :=
  {| ss_api_key := ss_api_key w; game_state := game_state w; fs := fs w;
     app_log := app_log w; ui := ui w; gen_calls := n;
     ana_calls := ana_calls w; clock_reads := clock_reads w |}.

Definition set_ana_calls (n : nat) (w : World) : World :=
  {| ss_api_key := ss_api_key w; game_state := game_state w; fs := fs w;
     app_log := app_log w; ui := ui w; gen_calls := gen_calls w;
     ana_calls := n; clock_reads := clock_reads w |}.

Definition set_clock_reads (n : nat) (w : World) : World :=
  {| ss_api_key := ss_api_key w; game_state := game_state w; fs := fs w;
     app_log := app_log w; ui := ui w; gen_calls := gen_calls w;
     ana_calls := ana_calls w; clock_reads := n |}.

(** ** The monad *)

Inductive result (A : Type) :=
| Ok (a : A)
| Raised (e : exn).
Arguments Ok {A} a.
Arguments Raised {A} e.

Definition M (A : Type) : Type := World -> result A * World.

Definition ret {A} (a : A) : M A := fun w => (Ok a, w).

Definition bind {A B} (m : M A) (k : A -> M B) : M B :=
  fun w => match m w with
           | (Ok a, w') => k a w'
           | (Raised e, w') => (Raised e, w')
           end.

Definition raise {A} (e : exn) : M A := fun w => (Raised e, w).

(** [try: body / except Exception as e: handler e] *)
Definition try_except {A} (body : M A) (handler : exn -> M A) : M A :=
  fun w => match body w with
           | (Raised e, w') =>
               if is_Exception e then handler e w' else (Raised e, w')
           | r => r
           end.

Definition get {A} (f : World -> A) : M A := fun w => (Ok (f w), w).
Definition modify (f : World -> World) : M unit := fun w => (Ok tt, f w).

Global Instance M_ret : MRet M := @ret.
Global Instance M_bind : MBind M := fun A B k m => bind m k.

(** ** Primitive effects *)

(** The file that the logger's [FileHandler] appends to.  Its content is
    not part of [fs]: a record handed to [logger] goes to [app_log]. *)
Definition app_log_path : string := "telephone_game_app.log".

Definition logger_info (msg : string) : M unit :=
  modify (fun w => set_app_log (app_log w ++ [(INFO, msg)]) w).
Definition logger_error (msg : string) : M unit :=
  modify (fun w => set_app_log (app_log w ++ [(ERROR, msg)]) w).
Definition st_error (msg : string) : M unit :=
  modify (fun w => set_ui (ui w ++ [StError msg]) w).
Definition st_warning (msg : string) : M unit :=
  modify (fun w => set_ui (ui w ++ [StWarning msg]) w).
Definition status_text (msg : string) : M unit :=
  modify (fun w => set_ui (ui w ++ [StatusText msg]) w).

(** [with open(path, "w") as f: f.write(text)]: the file is truncated,
    then holds [text] once the block is left.  File operations are taken
    to succeed. *)
Definition write_file (path text : string) : M unit :=
  modify (fun w => set_fs (<[path := text]> (fs w)) w).

(** [with open(path, "a") as f: f.write(text)]: [text] is added at the
    end; a missing file is created.  As for [write_file], the operation
    is taken to succeed. *)
Definition append_file (path text : string) : M unit :=
  modify (fun w =>
    set_fs (<[path := default "" (fs w !! path) +:+ text]> (fs w)) w).

Section WithEnv.
Variable E : Env.

(** [int(time.time())] *)
Definition time_now : M Z :=
  fun w => (Ok (time_time E (clock_reads w)),
            set_clock_reads (S (clock_reads w)) w).

(** [time.sleep(1)]: an event of the clock at which nothing is read.
    How long the pause lasts is the clock's affair: a property that
    depends on it assumes that the event after the pause comes at least
    a second later. *)
Definition time_sleep : M unit :=
  fun w => (Ok tt, set_clock_reads (S (clock_reads w)) w).

(** [time.strftime('%Y-%m-%d %H:%M:%S')] *)
Definition time_strftime : M string :=
  fun w => (Ok (strftime E (time_time E (clock_reads w))),
            set_clock_reads (S (clock_reads w)) w).

(** [client.images.generate(...)] and [response.data[0].url] *)
Definition call_images_generate (p : string) : M string :=
  fun w =>
    let w' := set_gen_calls (S (gen_calls w)) w in
    match images_generate E (gen_calls w) p with
    | GenOk url => (Ok url, w')
    | GenRaise msg => (Raised (Exception msg), w')
    end.

(** [Image.open(BytesIO(requests.get(image_url).content))], for the
    generation request just made *)
Definition call_requests_get (url : string) : M Image :=
  fun w =>
    match requests_get E (pred (gen_calls w)) url with
    | GetOk img => (Ok img, w)
    | GetRaise msg => (Raised (Exception msg), w)
    end.

Definition call_chat_create (url : string) : M (option string) :=
  fun w =>
    let w' := set_ana_calls (S (ana_calls w)) w in
    match chat_create E (ana_calls w) url with
    | AnaOk c => (Ok c, w')
    | AnaRaise msg => (Raised (Exception msg), w')
    end.

(** ** Formatting *)

(** An [int] inside an f-string. *)
Definition str_int (z : Z) : string := NilZero.string_of_int (Z.to_int z).

(** [s[:100]].  A [string] is a sequence of bytes here, so on text
    outside ASCII the cut can fall earlier than Python's, which counts
    characters; only messages of the application log use it. *)
Definition first100 (s : string) : string := String.substring 0 100 s.

(** Python truthiness of a [str]. *)
Definition nonempty (s : string) : bool :=
  match s with EmptyString => false | _ => true end.

(** ** get_client *)

(** The client is identified with the key it was built from. *)
Definition get_client_of (w : World) : option string :=
  let api_key := default (API_KEY E) (ss_api_key w) in
  if nonempty api_key then Some api_key else None.

Definition get_client : M (option string) := get get_client_of.

(** ** generate_image *)

(** The three [return] statements of [generate_image]. *)
Inductive GenRet :=
| RetOk (image : Image) (image_path image_url : string)
| RetNone3
| RetNone4.

Definition image_path_of (timestamp : Z) : string :=
  "telephone_game/image_" +:+ str_int timestamp +:+ ".png".

Definition generate_image (prompt : string) : M GenRet :=
  client ← get_client;
  match client with
  | None =>
      logger_error "No OpenAI client available";;
      ret RetNone3
  | Some _ =>
      logger_info ("Generating image from prompt: '" +:+ first100 prompt +:+ "...'");;
      try_except
        (image_url ← call_images_generate prompt;
         logger_info ("Image generated successfully: " +:+ image_url);;
         image ← call_requests_get image_url;
         timestamp ← time_now;
         let image_path := image_path_of timestamp in
         write_file image_path image;;
         logger_info ("Image saved to " +:+ image_path);;
         ret (RetOk image image_path image_url))
        (fun e =>
           logger_error ("Error generating image: " +:+ exn_str e);;
           st_error ("Error generating image: " +:+ exn_str e);;
           ret RetNone4)
  end.

(** ** analyze_image *)

Definition analyze_image (image_url : string) : M (option string) :=
  client ← get_client;
  match client with
  | None =>
      logger_error "No OpenAI client available for image analysis";;
      ret None
  | Some _ =>
      logger_info "Analyzing image with GPT-4o vision...";;
      try_except
        (content ← call_chat_create image_url;
         match content with
         | None => raise (TypeError "'NoneType' object is not subscriptable")
         | Some description =>
             logger_info ("Image analyzed successfully: '" +:+ first100 description +:+ "...'");;
             ret (Some description)
         end)
        (fun e =>
           logger_error ("Error analyzing image: " +:+ exn_str e);;
           st_error ("Error analyzing image: " +:+ exn_str e);;
           ret None)
  end.

(** ** main *)

(** What the user did to trigger this execution of the script.  A
    Streamlit button is [True] only in the execution its click caused,
    so at most one button is pressed per execution. *)
Inductive Click :=
| NoClick
| ClickClear      (** "Clear Game History" *)
| ClickStart      (** "Start Telephone Game" *)
| ClickOther.     (** one of the log viewing buttons *)

(** The widgets' values in one execution of the script. *)
Record Inputs := {
  in_api_key : string;          (** the sidebar text input *)
  in_cycles : nat;              (** the slider, 1 to 5 on the page *)
  in_click : Click;
  in_initial_prompt : string    (** the text area *)
}.

Definition nl : string := String "010"%char "".

Definition str_nat (n : nat) : string := str_int (Z.of_nat n).

Definition game_log_path_of (timestamp : Z) : string :=
  "telephone_game/game_log_" +:+ str_int timestamp +:+ ".txt".

Definition set_log_path (p : option string) (g : GameState) : GameState :=
  {| running := running g; cycles := cycles g; log_path := p |}.
Definition set_running (b : bool) (g : GameState) : GameState :=
  {| running := b; cycles := cycles g; log_path := log_path g |}.
Definition append_cycle (c : CycleData) (g : GameState) : GameState :=
  {| running := running g; cycles := cycles g ++ [c]; log_path := log_path g |}.

(** The three writes of the header block. *)
Definition log_header (start_time initial_prompt : string) : string :=
  ("=== AI Telephone Game with Images ===" +:+ nl)
  +:+ ("Start Time: " +:+ start_time +:+ nl)
  +:+ ("Initial Prompt: " +:+ initial_prompt +:+ nl +:+ nl).

(** The four writes of a cycle's block. *)
Definition log_block (cycles : nat) (c : CycleData) : string :=
  ("--- Cycle " +:+ str_nat (cycle c) +:+ " of " +:+ str_nat cycles +:+ " ---" +:+ nl)
  +:+ ("Prompt: " +:+ prompt c +:+ nl)
  +:+ ("Image Path: " +:+ image_path c +:+ nl)
  +:+ ("Description: " +:+ description c +:+ nl +:+ nl).

Definition log_footer (end_time : string) : string :=
  nl +:+ "Game completed at: " +:+ end_time +:+ nl.

(** How one iteration of the [for] loop ends. *)
Inductive LoopCtl :=
| Continue (current_prompt : string)
| Break.

(** The body of [for cycle in range(1, cycles + 1)].  A file opened in
    a [with] block holds what was written once the block is left, which
    is before the next statement runs; the model shows the text at
    once. *)
Definition cycle_body (cycles : nat) (log_path : string)
    (cycle : nat) (current_prompt : string) : M LoopCtl :=
  logger_info ("Starting cycle " +:+ str_nat cycle +:+ " of " +:+ str_nat cycles);;
  status_text ("🔄 Cycle " +:+ str_nat cycle +:+ " of " +:+ str_nat cycles +:+ ": Generating image...");;
  r ← generate_image current_prompt;
  match r with
  | RetNone4 =>
      (* image, image_path, image_url = <a tuple of four> *)
      raise (ValueError "too many values to unpack (expected 3)")
  | RetNone3 =>
      logger_error ("Failed to generate image in cycle " +:+ str_nat cycle);;
      st_error ("Failed to generate image in cycle " +:+ str_nat cycle);;
      ret Break
  | RetOk image image_path image_url =>
      status_text ("🔄 Cycle " +:+ str_nat cycle +:+ " of " +:+ str_nat cycles +:+ ": Analyzing image...");;
      new_description ← analyze_image image_url;
      if nonempty (default "" new_description) then
        let new_description := default "" new_description in
        let cycle_data :=
          {| cycle := cycle; prompt := current_prompt; image := image;
             image_path := image_path; description := new_description |} in
        modify (fun w => set_game_state (append_cycle cycle_data (game_state w)) w);;
        append_file log_path (log_block cycles cycle_data);;
        (if Nat.ltb cycle cycles then time_sleep else ret tt);;
        ret (Continue new_description)
      else
        logger_error ("Failed to analyze image in cycle " +:+ str_nat cycle);;
        st_error ("Failed to analyze image in cycle " +:+ str_nat cycle);;
        ret Break
  end.

Fixpoint for_cycles (body : nat → string → M LoopCtl)
    (range : list nat) (current_prompt : string) : M unit :=
  match range with
  | [] => ret tt
  | cycle :: range' =>
      c ← body cycle current_prompt;
      match c with
      | Break => ret tt
      | Continue current_prompt' => for_cycles body range' current_prompt'
      end
  end.

(** The branch of [main] taken when the start button was pressed with a
    prompt and a client (the [elif] block). *)
Definition main_game (cycles : nat) (initial_prompt : string) : M unit :=
  logger_info ("Starting new game with prompt: '" +:+ first100 initial_prompt +:+ "...'");;
  modify (set_game_state {| running := true; cycles := []; log_path := None |});;
  timestamp ← time_now;
  let log_path := game_log_path_of timestamp in
  modify (fun w => set_game_state (set_log_path (Some log_path) (game_state w)) w);;
  logger_info ("Created game log at: " +:+ log_path);;
  write_file log_path "";;
  start_time ← time_strftime;
  append_file log_path (log_header start_time initial_prompt);;
  for_cycles (cycle_body cycles log_path) (seq 1 cycles) initial_prompt;;
  status_text "✅ Game completed!";;
  logger_info "Game completed successfully";;
  end_time ← time_strftime;
  append_file log_path (log_footer end_time);;
  modify (fun w => set_game_state (set_running false (game_state w)) w).

(** [main], without the code that only draws: page set-up, the log
    viewers of the sidebar and the results section read the state and
    files and change neither.  The start button is declared with
    [disabled=running]; a click on it is taken to count only while it is
    enabled.  Where a run is considered the session is not running, and
    this reading plays no part. *)
Definition main (inp : Inputs) : M unit :=
  (if nonempty (in_api_key inp)
   then modify (set_ss_api_key (Some (in_api_key inp)))
   else ret tt);;
  let cycles := in_cycles inp in
  (match in_click inp with
   | ClickClear =>
       logger_info "Clearing game history";;
       modify (set_game_state fresh_game_state);;
       raise RerunException
   | _ => ret tt
   end);;
  let initial_prompt := in_initial_prompt inp in
  disabled ← get (fun w => running (game_state w));
  let start_button :=
    match in_click inp with ClickStart => negb disabled | _ => false end in
  client ← get_client;
  match client with
  | None =>
      st_warning "⚠️ Please enter your OpenAI API key in the sidebar to start."
  | Some _ =>
      if start_button && nonempty initial_prompt
      then main_game cycles initial_prompt
      else ret tt
  end.

End WithEnv.

(** * Notions used to state the properties *)

Section Notions.
Variable E : Env.

(** A client can be built: the key in force is not empty. *)
Definition has_client (w : World) : Prop :=
  nonempty (default (API_KEY E) (ss_api_key w)) = true.

(** The analysis step gives nothing the loop accepts: the call raised,
    or the reply had no content, or an empty one. *)
Definition ana_fails (r : AnaResult) : Prop :=
  match r with
  | AnaOk (Some d) => nonempty d = false
  | _ => True
  end.

(** What a completed iteration has done to the world. *)
Record recorded (N : nat) (lp : string) (c : CycleData) (w w' : World) : Prop := {
  rec_state : game_state w' = append_cycle c (game_state w);
  rec_log : fs w' !! lp = Some (default "" (fs w !! lp) +:+ log_block N c);
  rec_image : image_path c = image_path_of (time_time E (clock_reads w));
  rec_frame : ∀ q, q ≠ lp → (∀ t, image_path_of t ≠ q) →
              fs w' !! q = fs w !! q;
  rec_key : ss_api_key w' = ss_api_key w;
  rec_gen : gen_calls w' = S (gen_calls w);
  rec_ana : ana_calls w' = S (ana_calls w)
}.

(** The blocks of a list of records, in order. *)
Definition log_blocks (N : nat) (recs : list CycleData) : string :=
  foldr (λ c s, log_block N c +:+ s) "" recs.

(** [main_game] up to the loop; it returns the local [log_path]. *)
Definition main_game_begin (initial_prompt : string) : M string :=
  logger_info ("Starting new game with prompt: '" +:+ first100 initial_prompt +:+ "...'");;
  modify (set_game_state {| running := true; cycles := []; log_path := None |});;
  timestamp ← time_now E;
  let log_path := game_log_path_of timestamp in
  modify (fun w => set_game_state (set_log_path (Some log_path) (game_state w)) w);;
  logger_info ("Created game log at: " +:+ log_path);;
  write_file log_path "";;
  start_time ← time_strftime E;
  append_file log_path (log_header start_time initial_prompt);;
  mret log_path.

(** [main_game] after the loop. *)
Definition main_game_end (log_path : string) : M unit :=
  status_text "✅ Game completed!";;
  logger_info "Game completed successfully";;
  end_time ← time_strftime E;
  append_file log_path (log_footer end_time);;
  modify (fun w => set_game_state (set_running false (game_state w)) w).

(** The name [main_game] gives the log of a run started in [w], the
    header it writes, and the world in which the loop starts. *)
Definition run_log_path (w : World) : string :=
  game_log_path_of (time_time E (clock_reads w)).
Definition run_header (initial_prompt : string) (w : World) : string :=
  log_header (strftime E (time_time E (S (clock_reads w)))) initial_prompt.
Definition loop_start (initial_prompt : string) (w : World) : World :=
  (main_game_begin initial_prompt w).2.

(** The loop heads of [for_cycles (cycle_body N lp) (seq 1 N) p0]
    started in [w0]: [loop_head_at N lp p0 w0 j] is the current prompt
    and the world when [j] iterations have continued, that is when
    cycle [j + 1] is about to start (or, for [j = N], the loop is
    exhausted); [None] when the loop does not get that far. *)
Fixpoint loop_head_at (N : nat) (lp p0 : string) (w0 : World) (j : nat)
    : option (string * World) :=
  match j with
  | 0 => Some (p0, w0)
  | S j' =>
      match loop_head_at N lp p0 w0 j' with
      | Some (p, w) =>
          if decide (j' < N) then
            match cycle_body E N lp (S j') p w with
            | (Ok (Continue p'), w') => Some (p', w')
            | _ => None
            end
          else None
      | None => None
      end
  end.

(** The loop heads of the run [main_game N p0] started in [w]. *)
Definition game_heads (N : nat) (p0 : string) (w : World) (j : nat)
    : option (string * World) :=
  loop_head_at N (run_log_path w) p0 (loop_start p0 w) j.

(** What holds at a loop head [j], with current prompt [p] and world
    [w], of a loop started in [w0] with prompt [p0] when the log held
    [h]: [recs] are the records appended so far. *)
Record loop_inv (N : nat) (lp p0 : string) (w0 : World) (h : string)
    (j : nat) (p : string) (w : World) (recs : list CycleData) : Prop := {
  inv_state : game_state w =
    {| running := running (game_state w0);
       cycles := cycles (game_state w0) ++ recs;
       log_path := log_path (game_state w0) |};
  inv_index : cycle <$> recs = seq 1 j;
  inv_prompts : prompt <$> recs = take j (p0 :: (description <$> recs));
  inv_current : p = List.last (description <$> recs) p0;
  inv_log : fs w !! lp = Some (h +:+ log_blocks N recs);
  inv_key : ss_api_key w = ss_api_key w0;
  inv_gen : gen_calls w = gen_calls w0 + j;
  inv_ana : ana_calls w = ana_calls w0 + j
}.

(** Behaviour of the services at a given call. *)
Definition gen_succeeds (n : nat) : Prop :=
  (∀ p, ∃ url, images_generate E n p = GenOk url) ∧
  (∀ u, ∃ img, requests_get E n u = GetOk img).
Definition ana_succeeds (n : nat) : Prop :=
  ∀ u, ∃ d, chat_create E n u = AnaOk (Some d) ∧ nonempty d = true.
Definition gen_raises (n : nat) : Prop :=
  ∀ p, ∃ msg, images_generate E n p = GenRaise msg.
Definition ana_fails_at (n : nat) : Prop :=
  ∀ u, ana_fails (chat_create E n u).

(** The first [m] cycles of a run started in [w] succeed. *)
Definition cycles_succeed (m : nat) (w : World) : Prop :=
  ∀ i, i < m → gen_succeeds (gen_calls w + i) ∧ ana_succeeds (ana_calls w + i).

(** The world once the sidebar has stored a key that was typed in. *)
Definition after_sidebar (inp : Inputs) (w : World) : World :=
  if nonempty (in_api_key inp)
  then set_ss_api_key (Some (in_api_key inp)) w
  else w.

(** This execution of the script starts a run: the start button was
    pressed while enabled, with a prompt and a credential. *)
Definition starts_run (inp : Inputs) (w : World) : Prop :=
  in_click inp = ClickStart ∧
  running (game_state w) = false ∧
  nonempty (in_initial_prompt inp) = true ∧
  has_client (after_sidebar inp w).

(** The clock never goes back. *)
Definition clock_monotone : Prop :=
  ∀ n, (time_time E n ≤ time_time E (S n))%Z.

(** The events of the clock in a run started in [w] are, in order: the
    reading for the name of the log, the reading for the header, then
    for each cycle the reading for the name of its picture and, after
    every cycle but the last, the pause.  [pause_event w i] is the event
    at which the pause after cycle [i + 1] starts. *)
Definition pause_event (w : World) (i : nat) : nat :=
  clock_reads w + 3 + 2 * i.

(** Every pause of the run lasts at least a second: the event after it
    comes a second or more after the one at which it starts. *)
Definition pauses_last (inp : Inputs) (w : World) : Prop :=
  ∀ i, i + 1 < in_cycles inp →
    (time_time E (pause_event w i) + 1 ≤ time_time E (S (pause_event w i)))%Z.

(** The loop heads of the run that this execution starts. *)
Definition run_heads (inp : Inputs) (w : World) (j : nat)
    : option (string * World) :=
  game_heads (in_cycles inp) (in_initial_prompt inp) (after_sidebar inp w) j.

End Notions.

(** * The results section of [main] *)

(** What the results section puts on the page.  The two columns of an
    expander only lay its content out and are not represented. *)
#[warnings="-register-all"] Inductive Element :=
| Markdown (body : string)
| Header (body : string)
| Expander (label : string) (content : list Element)
| ImageEl (image : Image) (caption : string)
| Info (body : string)
| Success (body : string)
| DownloadButton (label data file_name mime : string).

Section Results.
Variable E : Env.

(** [with open(path, 'r') as f: f.read()] *)
Definition read_file (path : string) : M string :=
  fun w =>
    match fs w !! path with
    | Some text => (Ok text, w)
    | None =>
        (Raised (Exception ("[Errno 2] No such file or directory: '" +:+ path +:+ "'")), w)
    end.

(** The expander drawn for one record. *)
Definition cycle_expander (cycle_data : CycleData) : Element :=
  Expander ("🔄 Cycle " +:+ str_nat (cycle cycle_data))
    [ImageEl (image cycle_data) ("Cycle " +:+ str_nat (cycle cycle_data) +:+ " Image");
     Markdown "**Prompt:**";
     Info (prompt cycle_data);
     Markdown "**AI Description:**";
     Success (description cycle_data)].

(** The code of [main] under "Display results"; it returns what it
    draws. *)
Definition display_results : M (list Element) :=
  gs ← get game_state;
  match cycles gs with
  | [] => ret []
  | _ =>
      let drawn :=
        Markdown "---" :: Header "🎯 Game Results" ::
        (cycle_expander <$> cycles gs) in
      if nonempty (default "" (log_path gs)) then
        log_content ← read_file (default "" (log_path gs));
        timestamp ← time_now E;
        ret (drawn ++
             [DownloadButton "📥 Download Game Log" log_content
                ("telephone_game_" +:+ str_int timestamp +:+ ".txt")
                "text/plain"])%list
      else ret drawn
  end.

(** One execution of the script: [main] with its results section. *)
Definition main_page (inp : Inputs) : M (list Element) :=
  main E inp;; display_results.

(** The log that the session names is on disk. *)
Definition log_exists (w : World) : Prop :=
  ∀ lp, log_path (game_state w) = Some lp → is_Some (fs w !! lp).

(** The picture file of every record of the session is on disk. *)
Definition images_exist (w : World) : Prop :=
  Forall (λ c, is_Some (fs w !! image_path c)) (cycles (game_state w)).

(** The generation step of a cycle fails: the request raises, or the
    download of its picture does. *)
Definition gen_step_fails (n : nat) (p : string) : Prop :=
  match images_generate E n p with
  | GenRaise _ => True
  | GenOk url =>
      match requests_get E n url with GetRaise _ => True | GetOk _ => False end
  end.

End Results.

(** * Scenarios *)

(** A session in which nothing has happened yet. *)
Definition idle_world : World :=
  {| ss_api_key := None; game_state := fresh_game_state; fs := ∅;
     app_log := []; ui := []; gen_calls := 0; ana_calls := 0;
     clock_reads := 0 |}.

(** Pressing the start button with [n] cycles and prompt [p], the key
    field of the sidebar left empty. *)
Definition press_start (n : nat) (p : string) : Inputs :=
  {| in_api_key := ""; in_cycles := n; in_click := ClickStart;
     in_initial_prompt := p |}.

(** Stubs: generation always succeeds, analysis always returns the
    same description; the clock advances by a second per reading. *)
Definition E_stub : Env :=
  {| API_KEY := "sk-test";
     images_generate := λ _ p, GenOk ("https://images.test/" +:+ p);
     requests_get := λ _ u, GetOk ("picture at " +:+ u);
     chat_create := λ _ _, AnaOk (Some "a feline in pointed headwear");
     time_time := λ n, (1700000000 + Z.of_nat n)%Z;
     strftime := λ t, "at " +:+ str_int t |}.

(** As [E_stub], but every generation request raises. *)
Definition E_generation_down : Env :=
  {| API_KEY := "sk-test";
     images_generate := λ _ _, GenRaise "Connection error.";
     requests_get := requests_get E_stub;
     chat_create := chat_create E_stub;
     time_time := time_time E_stub;
     strftime := strftime E_stub |}.

(** As [E_stub], but the second analysis request raises. *)
Definition E_analysis_fails_second : Env :=
  {| API_KEY := "sk-test";
     images_generate := images_generate E_stub;
     requests_get := requests_get E_stub;
     chat_create := λ n u, if Nat.eqb n 1 then AnaRaise "Connection error."
                           else chat_create E_stub n u;
     time_time := time_time E_stub;
     strftime := strftime E_stub |}.

(** As [E_stub], but every reading of the clock falls in one second. *)
Definition E_same_second : Env :=
  {| API_KEY := "sk-test";
     images_generate := images_generate E_stub;
     requests_get := requests_get E_stub;
     chat_create := chat_create E_stub;
     time_time := λ _, 1700000000%Z;
     strftime := strftime E_stub |}.

(** Two one-cycle runs, the second started in the session the first
    left, all within one second. *)
Definition after_first_run : World :=
  (main E_same_second (press_start 1 "a cat wearing a wizard hat") idle_world).2.
Definition after_second_run : World :=
  (main E_same_second (press_start 1 "a dog on a skateboard") after_first_run).2.

(** As [E_stub], with no key in the environment. *)
Definition E_no_key : Env :=
  {| API_KEY := "";
     images_generate := images_generate E_stub;
     requests_get := requests_get E_stub;
     chat_create := chat_create E_stub;
     time_time := time_time E_stub;
     strftime := strftime E_stub |}.

(** As [E_stub], but the analysis replies with an empty description. *)
Definition E_no_description : Env :=
  {| API_KEY := "sk-test";
     images_generate := images_generate E_stub;
     requests_get := requests_get E_stub;
     chat_create := λ _ _, AnaOk (Some "");
     time_time := time_time E_stub;
     strftime := strftime E_stub |}.

(** Pressing the clear button. *)
Definition press_clear : Inputs :=
  {| in_api_key := ""; in_cycles := 3; in_click := ClickClear;
     in_initial_prompt := "" |}.

(** The session left by a run whose first generation request raised. *)
Definition after_crash : World :=
  (main E_generation_down (press_start 3 "a cat wearing a wizard hat")
     idle_world).2.

(** Proves the first premise of [H] by arithmetic. *)
Ltac discharge_by_lia H :=
  match type of H with
  | ?A → _ => let a := fresh in assert (a : A) by lia; specialize (H a); clear a
  end.

(** Proves that the application log grew, by naming what was added. *)
Ltac log_grows :=
  eexists; split; [| rewrite <- ?app_assoc; reflexivity]; done.

(** Unfolds the monadic plumbing of a computation applied to a world. *)
Ltac run_monad :=
  cbv beta iota zeta delta
    [mbind M_bind bind mret M_ret ret raise modify get get_client
     logger_info logger_error st_error st_warning status_text
     write_file append_file time_now time_sleep time_strftime try_except
     call_images_generate call_requests_get call_chat_create get_client_of];
  cbn.

(** * Properties *)

Local Open Scope list_scope.
Local Open Scope nat_scope.

(* The test [cycle < cycles] of the loop is kept folded by [cbn]. *)
Local Arguments Nat.ltb : simpl never.

(** ** Strings and file names *)

Lemma string_app_cons (a : ascii) (s t : string) :
  String a s +:+ t = String a (s +:+ t).
Proof. reflexivity. Qed.

Lemma string_app_assoc (s1 s2 s3 : string) :
  s1 +:+ (s2 +:+ s3) = (s1 +:+ s2) +:+ s3.
Proof.
  induction s1 as [|a s1 IH]; [done |].
  by rewrite !string_app_cons, IH.
Qed.

Lemma string_app_length (s1 s2 : string) :
  String.length (s1 +:+ s2) = String.length s1 + String.length s2.
Proof.
  induction s1 as [|a s1 IH]; [done |].
  rewrite string_app_cons. simpl. by rewrite IH.
Qed.

Lemma string_app_nil_r (s : string) : s +:+ "" = s.
Proof.
  induction s as [|a s IH]; [done |].
  by rewrite string_app_cons, IH.
Qed.

(** A common suffix can be cancelled. *)
Lemma string_app_inj_r (t s1 s2 : string) :
  s1 +:+ t = s2 +:+ t → s1 = s2.
Proof.
  revert s2. induction s1 as [|a s1 IH]; intros [|b s2] H.
  - done.
  - apply (f_equal String.length) in H.
    rewrite !string_app_length in H. simpl in H. lia.
  - apply (f_equal String.length) in H.
    rewrite !string_app_length in H. simpl in H. lia.
  - rewrite !string_app_cons in H.
    injection H as -> H. f_equal. by apply IH.
Qed.

Lemma to_int_normal (z : Z) :
  Z.to_int z ≠ Decimal.Pos Decimal.Nil ∧ Z.to_int z ≠ Decimal.Neg Decimal.Nil.
Proof.
  destruct z as [|p|p]; simpl; split; try discriminate;
    intros [= H]; by apply (DecimalPos.Unsigned.to_uint_nonnil p).
Qed.

(** The decimal rendering of an integer determines it. *)
Lemma str_int_inj (a b : Z) : str_int a = str_int b → a = b.
Proof.
  unfold str_int. intros H.
  apply (f_equal NilZero.int_of_string) in H.
  destruct (to_int_normal a) as [Ha1 Ha2], (to_int_normal b) as [Hb1 Hb2].
  rewrite !NilZero.isi in H by done.
  injection H as H. by apply DecimalZ.to_int_inj.
Qed.

Lemma game_log_path_of_inj (t1 t2 : Z) :
  game_log_path_of t1 = game_log_path_of t2 → t1 = t2.
Proof.
  unfold game_log_path_of. intros H.
  apply (inj (String.app _)) in H.
  by apply string_app_inj_r, str_int_inj in H.
Qed.

Lemma image_path_of_inj (t1 t2 : Z) :
  image_path_of t1 = image_path_of t2 → t1 = t2.
Proof.
  unfold image_path_of. intros H.
  apply (inj (String.app _)) in H.
  by apply string_app_inj_r, str_int_inj in H.
Qed.

(** An image never has the name of a game log. *)
Lemma image_path_not_log (t t' : Z) : image_path_of t ≠ game_log_path_of t'.
Proof. unfold image_path_of, game_log_path_of. cbv [String.append]. discriminate. Qed.

(** Both kinds of file live in the game directory. *)
Lemma image_path_in_dir (t : Z) :
  String.prefix "telephone_game/" (image_path_of t) = true.
Proof. reflexivity. Qed.

(** ** One iteration of the loop *)


Section Run.
Variable E : Env.

Lemma has_client_get (w : World) :
  has_client E w ↔ is_Some (get_client_of E w).
Proof.
  unfold has_client, get_client_of.
  destruct (nonempty _); split; intros H;
    first [done | by eexists | by destruct H as [? [=]]].
Qed.



(** Every way an iteration can end.  It continues only after appending
    one record and its block; otherwise the records and the log are as
    they were, and the only exception is the failed unpacking. *)
Lemma cycle_body_cases N lp k p w r w' :
  (∀ t, image_path_of t ≠ lp) →
  cycle_body E N lp k p w = (r, w') →
  match r with
  | Ok (Continue d) =>
      nonempty d = true ∧
      ∃ c, cycle c = k ∧ prompt c = p ∧ description c = d ∧ recorded E N lp c w w'
  | Ok Break =>
      game_state w' = game_state w ∧
      ∀ q, (∀ t, image_path_of t ≠ q) → fs w' !! q = fs w !! q
  | Raised e =>
      e = ValueError "too many values to unpack (expected 3)" ∧
      game_state w' = game_state w ∧
      ∀ q, (∀ t, image_path_of t ≠ q) → fs w' !! q = fs w !! q
  end.
Proof.
  intros Hlp. unfold cycle_body, generate_image, analyze_image. run_monad.
  destruct (nonempty (default (API_KEY E) (ss_api_key w))) eqn:Hc; cbn.
  2:{ intros ?; simplify_eq. by split. }
  destruct (images_generate E (gen_calls w) p) as [url|msg] eqn:Hg; cbn.
  2:{ intros ?; simplify_eq. by split_and!. }
  destruct (requests_get E (gen_calls w) url) as [img|msg] eqn:Hi; cbn.
  2:{ intros ?; simplify_eq. by split_and!. }
  rewrite Hc; cbn.
  destruct (chat_create E (ana_calls w) url) as [[d|]|msg] eqn:Ha; cbn.
  2:{ intros ?; simplify_eq; cbn.
      split; [done | intros q Hq; by rewrite lookup_insert_ne by apply Hq]. }
  2:{ intros ?; simplify_eq; cbn.
      split; [done | intros q Hq; by rewrite lookup_insert_ne by apply Hq]. }
  destruct (nonempty d) eqn:Hd; [destruct (k <? N) |];
    intros ?; simplify_eq; cbn.
  3:{ split; [done | intros q Hq; by rewrite lookup_insert_ne by apply Hq]. }
  all: split; [done |].
  all: exists {| cycle := k; prompt := p; image := img;
                 image_path := image_path_of (time_time E (clock_reads w));
                 description := d |}.
  all: split_and!; [done..|]; split; cbn; try done.
  all: try (rewrite lookup_insert_eq; by rewrite lookup_insert_ne by apply Hlp).
  all: intros q Hq Hq'; by rewrite !lookup_insert_ne by auto.
Qed.

(** Both calls answer: the iteration continues with the description. *)
Lemma cycle_body_success N lp k p w img url d :
  has_client E w →
  images_generate E (gen_calls w) p = GenOk url →
  requests_get E (gen_calls w) url = GetOk img →
  chat_create E (ana_calls w) url = AnaOk (Some d) →
  nonempty d = true →
  ∃ w', cycle_body E N lp k p w = (Ok (Continue d), w').
Proof.
  unfold has_client. intros Hc Hg Hi Ha Hd.
  unfold cycle_body, generate_image, analyze_image. run_monad.
  rewrite Hc; cbn. rewrite Hg; cbn. rewrite Hi; cbn.
  rewrite Hc; cbn. rewrite Ha; cbn.
  rewrite Hd; cbn. destruct (k <? N); by eexists.
Qed.

(** The generation call raises: [generate_image] shows the error and
    returns four values, which [main] cannot unpack. *)
Lemma cycle_body_gen_raise N lp k p w msg :
  has_client E w →
  images_generate E (gen_calls w) p = GenRaise msg →
  ∃ w', cycle_body E N lp k p w
        = (Raised (ValueError "too many values to unpack (expected 3)"), w')
        ∧ last (ui w') = Some (StError ("Error generating image: " +:+ msg)).
Proof.
  unfold has_client. intros Hc Hg.
  unfold cycle_body, generate_image. run_monad.
  rewrite Hc; cbn. rewrite Hg; cbn.
  eexists. split; [done |]. cbn. by rewrite last_snoc.
Qed.

(** The analysis step fails: the loop is left by [break]. *)
Lemma cycle_body_ana_fail N lp k p w img url :
  has_client E w →
  images_generate E (gen_calls w) p = GenOk url →
  requests_get E (gen_calls w) url = GetOk img →
  ana_fails (chat_create E (ana_calls w) url) →
  ∃ w', cycle_body E N lp k p w = (Ok Break, w')
        ∧ last (ui w')
          = Some (StError ("Failed to analyze image in cycle " +:+ str_nat k)).
Proof.
  unfold has_client, ana_fails. intros Hc Hg Hi Ha.
  unfold cycle_body, generate_image, analyze_image. run_monad.
  rewrite Hc; cbn. rewrite Hg; cbn. rewrite Hi; cbn. rewrite Hc; cbn.
  destruct (chat_create E (ana_calls w) url) as [[d|]|m]; cbn.
  - rewrite Ha; cbn. eexists. split; [done |]. cbn. by rewrite last_snoc.
  - eexists. split; [done |]. cbn. by rewrite last_snoc.
  - eexists. split; [done |]. cbn. by rewrite last_snoc.
Qed.

End Run.

(** ** The loop *)

Lemma last_cons_default {A} (l : list A) (a d d' : A) :
  List.last (a :: l) d = List.last (a :: l) d'.
Proof.
  revert a. induction l as [|b l IH]; intros a; [done |].
  change (List.last (b :: l) d = List.last (b :: l) d'). apply IH.
Qed.

Lemma last_cons_shift {A} (t : list A) (x y : A) :
  List.last (y :: t) x = List.last t y.
Proof.
  destruct t as [|z t]; [done |].
  change (List.last (z :: t) x = List.last (z :: t) y).
  apply last_cons_default.
Qed.

Lemma take_snoc_last {A} (t : list A) (x : A) :
  (take (List.length t) (x :: t) ++ [List.last t x])%list = x :: t.
Proof.
  revert x. induction t as [|y t IH]; intros x; [done |].
  rewrite last_cons_shift. cbn [List.length take].
  rewrite <- app_comm_cons. f_equal. apply IH.
Qed.

Section Loop.
Variable E : Env.
Variables (N : nat) (lp : string).
Hypothesis lp_not_image : ∀ t, image_path_of t ≠ lp.

Lemma log_blocks_snoc (recs : list CycleData) (c : CycleData) :
  log_blocks N (recs ++ [c]) = log_blocks N recs +:+ log_block N c.
Proof.
  induction recs as [|r recs IH]; cbn [log_blocks foldr app].
  - by rewrite string_app_nil_r.
  - fold (log_blocks N (recs ++ [c])). fold (log_blocks N recs).
    by rewrite IH, string_app_assoc.
Qed.

(** One turn of the [for] loop. *)
Lemma for_cycles_cons body (k : nat) (range : list nat) (p : string) (w : World) :
  for_cycles body (k :: range) p w =
  match body k p w with
  | (Ok (Continue p'), w') => for_cycles body range p' w'
  | (Ok Break, w') => (Ok tt, w')
  | (Raised e, w') => (Raised e, w')
  end.
Proof.
  cbn [for_cycles]. cbv [mbind M_bind bind ret].
  by destruct (body k p w) as [[[?|]|?] ?].
Qed.

Lemma loop_head_at_le p0 w0 j p w :
  loop_head_at E N lp p0 w0 j = Some (p, w) → j ≤ N.
Proof.
  destruct j as [|j]; [lia |]. cbn [loop_head_at].
  destruct (loop_head_at E N lp p0 w0 j) as [[? ?]|]; [|done].
  destruct (decide (j < N)); [lia | done].
Qed.

(** A loop head is a state the loop really passes through: the run of
    the whole loop is the run of its remaining iterations from there. *)
Lemma for_cycles_from_head p0 w0 j p w :
  loop_head_at E N lp p0 w0 j = Some (p, w) →
  for_cycles (cycle_body E N lp) (seq 1 N) p0 w0 =
  for_cycles (cycle_body E N lp) (seq (S j) (N - j)) p w.
Proof.
  revert p w. induction j as [|j IH]; intros p w H.
  - cbn in H. simplify_eq. by rewrite Nat.sub_0_r.
  - cbn [loop_head_at] in H.
    destruct (loop_head_at E N lp p0 w0 j) as [[q v]|]; [|done].
    destruct (decide (j < N)) as [Hj|]; [|done].
    rewrite (IH q v eq_refl).
    replace (N - j) with (S (N - S j)) by lia.
    cbn [seq]. rewrite for_cycles_cons.
    destruct (cycle_body E N lp (S j) q v) as [[[d|]|e] v']; by simplify_eq.
Qed.

Lemma loop_head_inv p0 w0 h j p w :
  fs w0 !! lp = Some h →
  loop_head_at E N lp p0 w0 j = Some (p, w) →
  ∃ recs, loop_inv N lp p0 w0 h j p w recs.
Proof.
  intros Hh. revert p w. induction j as [|j IH]; intros p w H.
  - cbn in H. simplify_eq. exists []. split; cbn; try done; try lia.
    + destruct (game_state w) as [? cs ?]; cbn. by rewrite app_nil_r.
    + by rewrite string_app_nil_r.
  - cbn [loop_head_at] in H.
    destruct (loop_head_at E N lp p0 w0 j) as [[q v]|]; [|done].
    destruct (decide (j < N)) as [Hj|]; [|done].
    destruct (cycle_body E N lp (S j) q v) as [[[d|]|e] v'] eqn:Hb;
      simplify_eq.
    destruct (IH q v eq_refl) as [recs I].
    apply cycle_body_cases in Hb as (Hd & c & Hk & Hp & Hc & R); [|done].
    assert (Hlen : List.length recs = j).
    { rewrite <- (length_fmap cycle), (inv_index _ _ _ _ _ _ _ _ _ I).
      apply length_seq. }
    exists (recs ++ [c]). split.
    + rewrite (rec_state _ _ _ _ _ _ R), (inv_state _ _ _ _ _ _ _ _ _ I).
      cbv [append_cycle]; cbn. by rewrite app_assoc.
    + rewrite fmap_app, (inv_index _ _ _ _ _ _ _ _ _ I), seq_S. cbn.
      by rewrite Hk.
    + rewrite !fmap_app. cbn [fmap list_fmap].
      rewrite app_comm_cons, take_app_length'
        by (cbn; rewrite length_fmap; lia).
      rewrite (inv_prompts _ _ _ _ _ _ _ _ _ I), Hp.
      rewrite (inv_current _ _ _ _ _ _ _ _ _ I).
      rewrite <- Hlen at 1. rewrite <- (length_fmap description).
      apply take_snoc_last.
    + rewrite fmap_app. cbn. by rewrite last_last.
    + rewrite (rec_log _ _ _ _ _ _ R), (inv_log _ _ _ _ _ _ _ _ _ I). cbn.
      by rewrite log_blocks_snoc, string_app_assoc.
    + by rewrite (rec_key _ _ _ _ _ _ R), (inv_key _ _ _ _ _ _ _ _ _ I).
    + rewrite (rec_gen _ _ _ _ _ _ R), (inv_gen _ _ _ _ _ _ _ _ _ I). lia.
    + rewrite (rec_ana _ _ _ _ _ _ R), (inv_ana _ _ _ _ _ _ _ _ _ I). lia.
Qed.

(** While every call answers, the loop reaches the next head. *)
Lemma heads_exist p0 w0 h m :
  fs w0 !! lp = Some h →
  has_client E w0 →
  cycles_succeed E m w0 →
  m ≤ N →
  ∃ p w, loop_head_at E N lp p0 w0 m = Some (p, w).
Proof.
  intros Hh Hc. induction m as [|m IH]; intros Hs Hm; [by eexists _, _ |].
  destruct IH as (p & w & H); [intros i Hi; apply Hs; lia | lia |].
  destruct (loop_head_inv _ _ _ _ _ _ Hh H) as [recs I].
  destruct (Hs m) as [[Hg Hi] Ha]; [lia |].
  destruct (Hg p) as (url & Hg').
  destruct (Hi url) as (img & Hi').
  destruct (Ha url) as (d & Ha' & Hd).
  destruct (cycle_body_success E N lp (S m) p w img url d) as [w' Hb].
  - unfold has_client. by rewrite (inv_key _ _ _ _ _ _ _ _ _ I).
  - by rewrite (inv_gen _ _ _ _ _ _ _ _ _ I).
  - by rewrite (inv_gen _ _ _ _ _ _ _ _ _ I).
  - by rewrite (inv_ana _ _ _ _ _ _ _ _ _ I).
  - done.
  - exists d, w'. cbn [loop_head_at]. rewrite H.
    destruct (decide (m < N)); [|lia]. by rewrite Hb.
Qed.

(** Whatever the rest of the loop does, it only adds records and only
    adds text to the log; it leaves by exhaustion, by [break] or by the
    failed unpacking. *)
Lemma for_cycles_extends range p w h r w' :
  fs w !! lp = Some h →
  for_cycles (cycle_body E N lp) range p w = (r, w') →
  running (game_state w') = running (game_state w) ∧
  log_path (game_state w') = log_path (game_state w) ∧
  cycles (game_state w) `prefix_of` cycles (game_state w') ∧
  (∃ rest, fs w' !! lp = Some (h +:+ rest)) ∧
  (∀ q, q ≠ lp → (∀ t, image_path_of t ≠ q) → fs w' !! q = fs w !! q) ∧
  (r = Ok tt ∨ r = Raised (ValueError "too many values to unpack (expected 3)")).
Proof.
  revert p w h. induction range as [|k range IH]; intros p w h Hh H.
  - cbv in H. simplify_eq. split_and!; try done.
    + exists "". by rewrite string_app_nil_r.
    + by left.
  - rewrite for_cycles_cons in H.
    destruct (cycle_body E N lp k p w) as [[[d|]|e] v] eqn:Hb;
      apply cycle_body_cases in Hb; try done.
    + destruct Hb as (_ & c & _ & _ & _ & R).
      pose proof (rec_log _ _ _ _ _ _ R) as HL. rewrite Hh in HL. cbn in HL.
      destruct (IH _ _ _ HL H) as (Hr & Hl & Hp & [rest Hf] & Hq & Ho).
      rewrite (rec_state _ _ _ _ _ _ R) in Hr, Hl, Hp. cbn in Hr, Hl, Hp.
      split_and!; try done.
      * etrans; [|exact Hp]. by apply prefix_app_r.
      * exists (log_block N c +:+ rest). by rewrite string_app_assoc.
      * intros q Hne Hi. rewrite Hq by done.
        by apply (rec_frame _ _ _ _ _ _ R).
    + destruct Hb as [Hg Hf]. simplify_eq. rewrite Hg.
      split_and!; try done.
      * exists "". by rewrite Hf, string_app_nil_r.
      * intros q _ Hi. by apply Hf.
      * by left.
    + destruct Hb as (-> & Hg & Hf). simplify_eq. rewrite Hg.
      split_and!; try done.
      * exists "". by rewrite Hf, string_app_nil_r.
      * intros q _ Hi. by apply Hf.
      * by right.
Qed.

End Loop.

(** ** The run as a whole *)

Section Game.
Variable E : Env.

(** The log of a run is not an image file. *)
Lemma run_log_not_image (w : World) (t : Z) : image_path_of t ≠ run_log_path E w.
Proof. apply image_path_not_log. Qed.

(** [main_game] is its opening, then the loop, then its closing unless
    the loop raised. *)
Lemma main_game_run (N : nat) (p0 : string) (w : World) :
  main_game E N p0 w =
  match for_cycles (cycle_body E N (run_log_path E w)) (seq 1 N) p0
          (loop_start E p0 w) with
  | (Ok _, w1) => main_game_end E (run_log_path E w) w1
  | (Raised e, w1) => (Raised e, w1)
  end.
Proof.
  unfold main_game, loop_start, main_game_begin, run_log_path.
  cbv beta iota zeta delta
    [mbind M_bind bind mret M_ret ret modify logger_info time_now
     time_strftime write_file append_file].
  cbn [fst snd set_app_log set_game_state set_fs set_clock_reads
       clock_reads app_log game_state fs].
  by destruct (for_cycles _ _ _ _) as [[[]|e] w1].
Qed.

Lemma loop_start_facts (p0 : string) (w : World) :
  game_state (loop_start E p0 w) =
    {| running := true; cycles := []; log_path := Some (run_log_path E w) |} ∧
  fs (loop_start E p0 w) !! run_log_path E w = Some (run_header E p0 w) ∧
  (∀ q, q ≠ run_log_path E w → fs (loop_start E p0 w) !! q = fs w !! q) ∧
  ss_api_key (loop_start E p0 w) = ss_api_key w ∧
  gen_calls (loop_start E p0 w) = gen_calls w ∧
  ana_calls (loop_start E p0 w) = ana_calls w ∧
  ui (loop_start E p0 w) = ui w.
Proof.
  unfold loop_start, main_game_begin, run_log_path, run_header. run_monad.
  split_and!; try done.
  - rewrite !lookup_insert_eq. reflexivity.
  - intros q Hq. by rewrite !lookup_insert_ne.
Qed.

Lemma main_game_end_run (lp : string) (w1 : World) :
  ∃ w2, main_game_end E lp w1 = (Ok tt, w2) ∧
    game_state w2 = set_running false (game_state w1) ∧
    fs w2 !! lp = Some (default "" (fs w1 !! lp) +:+
                        log_footer (strftime E (time_time E (clock_reads w1)))) ∧
    (∀ q, q ≠ lp → fs w2 !! q = fs w1 !! q) ∧
    last (ui w2) = Some (StatusText "✅ Game completed!").
Proof.
  unfold main_game_end. run_monad. eexists. split_and!; try done.
  - cbn. by rewrite lookup_insert_eq.
  - intros q Hq. cbn. by rewrite lookup_insert_ne.
  - cbn. by rewrite last_snoc.
Qed.

(** An execution that starts a run is that run. *)
Lemma main_run (inp : Inputs) (w : World) :
  starts_run E inp w →
  main E inp w =
  main_game E (in_cycles inp) (in_initial_prompt inp) (after_sidebar inp w).
Proof.
  intros (Hclick & Hrun & Hp & Hc). unfold has_client in Hc.
  unfold main, after_sidebar in *. rewrite Hclick.
  cbv beta iota zeta delta [mbind M_bind bind mret M_ret ret modify get get_client get_client_of].
  destruct (nonempty (in_api_key inp)); cbn [fst snd ss_api_key game_state set_ss_api_key] in *;
    rewrite Hc, Hrun, Hp; reflexivity.
Qed.

(** What a loop head of a run looks like. *)
Lemma game_head_inv N p0 w j p wj :
  game_heads E N p0 w j = Some (p, wj) →
  ∃ recs,
    game_state wj =
      {| running := true; cycles := recs; log_path := Some (run_log_path E w) |} ∧
    List.length recs = j ∧
    loop_inv N (run_log_path E w) p0 (loop_start E p0 w) (run_header E p0 w)
             j p wj recs.
Proof.
  unfold game_heads. intros H.
  destruct (loop_start_facts p0 w) as (Hg & Hf & _).
  destruct (loop_head_inv E N _ (run_log_not_image w) _ _ _ _ _ _ Hf H)
    as [recs I].
  exists recs. split_and!; [|  |done].
  - rewrite (inv_state _ _ _ _ _ _ _ _ _ I), Hg. done.
  - rewrite <- (length_fmap cycle), (inv_index _ _ _ _ _ _ _ _ _ I).
    apply length_seq.
Qed.

(** The run seen from one of its loop heads. *)
Lemma main_game_at_head N p0 w j p wj :
  game_heads E N p0 w j = Some (p, wj) →
  main_game E N p0 w =
  match for_cycles (cycle_body E N (run_log_path E w))
          (seq (S j) (N - j)) p wj with
  | (Ok _, w1) => main_game_end E (run_log_path E w) w1
  | (Raised e, w1) => (Raised e, w1)
  end.
Proof.
  intros H. rewrite main_game_run.
  by rewrite (for_cycles_from_head E N _ _ _ _ _ _ H).
Qed.

(** Records and log at a loop head stay in every later state of the run. *)
Lemma head_kept N p0 w j p wj r wf :
  game_heads E N p0 w j = Some (p, wj) →
  main_game E N p0 w = (r, wf) →
  cycles (game_state wj) `prefix_of` cycles (game_state wf) ∧
  ∃ rest, fs wf !! run_log_path E w =
    Some ((run_header E p0 w +:+ log_blocks N (cycles (game_state wj))) +:+ rest).
Proof.
  intros H Hm. rewrite (main_game_at_head _ _ _ _ _ _ H) in Hm.
  destruct (game_head_inv _ _ _ _ _ _ H) as (recs & Hg & _ & I).
  pose proof (inv_log _ _ _ _ _ _ _ _ _ I) as HL.
  rewrite Hg. cbn [cycles].
  destruct (for_cycles _ _ _ _) as [r1 w1] eqn:Hloop.
  destruct (for_cycles_extends E N _ (run_log_not_image w) _ _ _ _ _ _ HL Hloop)
    as (_ & _ & Hp & [rest Hf] & _ & _).
  rewrite Hg in Hp. cbn [cycles] in Hp.
  destruct r1 as [[]|e].
  - destruct (main_game_end_run (run_log_path E w) w1) as (w2 & He & Hs & Hl & _ & _).
    rewrite He in Hm. simplify_eq. rewrite Hs. split; [done |].
    rewrite Hl, Hf. cbn. eexists. by rewrite <- string_app_assoc.
  - simplify_eq. split; [done |]. by exists rest.
Qed.

Lemma heads_prefix N p0 w j p wj d p' wj' :
  game_heads E N p0 w j = Some (p, wj) →
  game_heads E N p0 w (j + d) = Some (p', wj') →
  cycles (game_state wj) `prefix_of` cycles (game_state wj').
Proof.
  intros H. revert p' wj'. induction d as [|d IH]; intros p' wj' H'.
  - rewrite Nat.add_0_r in H'. by simplify_eq.
  - rewrite Nat.add_succ_r in H'. unfold game_heads in H', IH.
    cbn [loop_head_at] in H'.
    destruct (loop_head_at E N _ p0 _ (j + d)) as [[q v]|]; [|done].
    destruct (decide (j + d < N)); [|done].
    destruct (cycle_body E N _ (S (j + d)) q v) as [[[x|]|e] v'] eqn:Hb;
      simplify_eq.
    apply cycle_body_cases in Hb as (_ & c & _ & _ & _ & R);
      [|apply run_log_not_image].
    rewrite (rec_state _ _ _ _ _ _ R). cbn.
    etrans; [exact (IH q v eq_refl) | by apply prefix_app_r].
Qed.

(** The run up to cycle [S j], when the cycles before it succeed. *)
Lemma run_reaches N p0 w j :
  has_client E w →
  cycles_succeed E j w →
  j ≤ N →
  ∃ p wj, game_heads E N p0 w j = Some (p, wj) ∧
    has_client E wj ∧
    gen_calls wj = gen_calls w + j ∧ ana_calls wj = ana_calls w + j.
Proof.
  intros Hc Hs Hj.
  destruct (loop_start_facts p0 w) as (Hg & Hf & _ & Hk & Hgc & Hac & _).
  destruct (heads_exist E N _ (run_log_not_image w) p0 (loop_start E p0 w)
              _ j Hf) as (p & wj & H); [| |done|].
  - unfold has_client. by rewrite Hk.
  - unfold cycles_succeed. by rewrite Hgc, Hac.
  - exists p, wj. split; [done |].
    destruct (game_head_inv _ _ _ _ _ _ H) as (recs & _ & _ & I).
    unfold has_client.
    rewrite (inv_key _ _ _ _ _ _ _ _ _ I), (inv_gen _ _ _ _ _ _ _ _ _ I),
      (inv_ana _ _ _ _ _ _ _ _ _ I), Hk, Hgc, Hac. done.
Qed.

(** However a run ends, the session names its log, and no file other
    than that log and the images has changed. *)
Lemma main_game_outcome N p0 w r wf :
  main_game E N p0 w = (r, wf) →
  log_path (game_state wf) = Some (run_log_path E w) ∧
  (∀ q, q ≠ run_log_path E w → (∀ t, image_path_of t ≠ q) →
        fs wf !! q = fs w !! q).
Proof.
  rewrite main_game_run. intros Hm.
  destruct (loop_start_facts p0 w) as (Hg & Hf & Hq & _).
  destruct (for_cycles _ _ _ _) as [r1 w1] eqn:Hloop.
  destruct (for_cycles_extends E N _ (run_log_not_image w) _ _ _ _ _ _ Hf Hloop)
    as (_ & Hl & _ & _ & Hq1 & _).
  rewrite Hg in Hl. cbn in Hl.
  destruct r1 as [[]|e].
  - destruct (main_game_end_run (run_log_path E w) w1)
      as (w2 & He & Hs & _ & Hq2 & _).
    rewrite He in Hm. simplify_eq. rewrite Hs. split; [done |].
    intros q Hne Hi. by rewrite Hq2, Hq1, Hq.
  - simplify_eq. split; [done |].
    intros q Hne Hi. by rewrite Hq1, Hq.
Qed.

(** The sidebar touches nothing but the stored key. *)
Lemma after_sidebar_frame (inp : Inputs) (w : World) :
  game_state (after_sidebar inp w) = game_state w ∧
  fs (after_sidebar inp w) = fs w ∧
  ui (after_sidebar inp w) = ui w ∧
  app_log (after_sidebar inp w) = app_log w ∧
  gen_calls (after_sidebar inp w) = gen_calls w ∧
  ana_calls (after_sidebar inp w) = ana_calls w ∧
  clock_reads (after_sidebar inp w) = clock_reads w.
Proof. unfold after_sidebar. by destruct (nonempty _). Qed.

End Game.

(** ** Properties of a run *)

(** Prompts that are the initial prompt followed by the descriptions
    are threaded record by record. *)
Lemma threaded_lookup (p0 : string) (recs : list CycleData) :
  prompt <$> recs = take (List.length recs) (p0 :: (description <$> recs)) →
  (∀ c, recs !! 0 = Some c → prompt c = p0) ∧
  (∀ i c c', recs !! i = Some c → recs !! S i = Some c' →
             prompt c' = description c).
Proof.
  intros H. split.
  - intros c Hc.
    assert (Hl : (prompt <$> recs) !! 0 = Some (prompt c))
      by (by rewrite list_lookup_fmap, Hc).
    rewrite H, lookup_take_lt in Hl by (by apply lookup_lt_Some in Hc).
    by injection Hl.
  - intros i c c' Hc Hc'.
    assert (Hl : (prompt <$> recs) !! S i = Some (prompt c'))
      by (by rewrite list_lookup_fmap, Hc').
    rewrite H, lookup_take_lt in Hl by (by apply lookup_lt_Some in Hc').
    change ((description <$> recs) !! i = Some (prompt c')) in Hl.
    rewrite list_lookup_fmap, Hc in Hl. by injection Hl.
Qed.

(** The generation request of cycle [k] raises after [k - 1] good
    cycles: the exception of the failed unpacking leaves [main]. *)
Lemma main_gen_raise (E : Env) (inp : Inputs) (w : World) (k : nat) :
  starts_run E inp w →
  1 ≤ k ≤ in_cycles inp →
  cycles_succeed E (k - 1) w →
  gen_raises E (gen_calls w + (k - 1)) →
  ∃ w' msg,
    main E inp w =
      (Raised (ValueError "too many values to unpack (expected 3)"), w') ∧
    running (game_state w') = true ∧
    List.length (cycles (game_state w')) = k - 1 ∧
    last (ui w') = Some (StError ("Error generating image: " +:+ msg)).
Proof.
  intros Hs Hk Hok Hbad. rewrite (main_run _ _ _ Hs).
  destruct Hs as (_ & _ & _ & Hc).
  destruct (after_sidebar_frame inp w) as (_ & _ & _ & _ & Hgc & Hac & _).
  destruct k as [|j]; [lia |]. replace (S j - 1) with j in * by lia.
  destruct (run_reaches E (in_cycles inp) (in_initial_prompt inp)
              (after_sidebar inp w) j Hc) as (p & wj & H & Hcj & Hgj & Haj).
  { unfold cycles_succeed. by rewrite Hgc, Hac. }
  { lia. }
  rewrite (main_game_at_head _ _ _ _ _ _ _ H).
  replace (in_cycles inp - j) with (S (in_cycles inp - S j)) by lia.
  cbn [seq]. rewrite for_cycles_cons.
  destruct (Hbad p) as [msg Hg]. rewrite <- Hgc, <- Hgj in Hg.
  destruct (cycle_body_gen_raise E (in_cycles inp)
              (run_log_path E (after_sidebar inp w)) (S j) p wj msg Hcj Hg)
    as (w' & Hb & Hui).
  rewrite Hb. exists w', msg. split; [done |].
  apply cycle_body_cases in Hb as (_ & Hst & _); [|apply run_log_not_image].
  destruct (game_head_inv _ _ _ _ _ _ _ H) as (recs & Hgs & Hlen & _).
  rewrite Hst, Hgs. by split_and!.
Qed.

(** The analysis of cycle [k] fails after [k - 1] good cycles: the loop
    is left by [break] and the closing code of [main] runs all the same. *)
Lemma main_ana_fail (E : Env) (inp : Inputs) (w : World) (k : nat) :
  starts_run E inp w →
  1 ≤ k ≤ in_cycles inp →
  cycles_succeed E (k - 1) w →
  gen_succeeds E (gen_calls w + (k - 1)) →
  ana_fails_at E (ana_calls w + (k - 1)) →
  ∃ w' end_time,
    main E inp w = (Ok tt, w') ∧
    running (game_state w') = false ∧
    List.length (cycles (game_state w')) = k - 1 ∧
    last (ui w') = Some (StatusText "✅ Game completed!") ∧
    fs w' !! run_log_path E (after_sidebar inp w) =
      Some ((run_header E (in_initial_prompt inp) (after_sidebar inp w)
             +:+ log_blocks (in_cycles inp) (cycles (game_state w')))
            +:+ log_footer end_time).
Proof.
  intros Hs Hk Hok Hgen Hbad. rewrite (main_run _ _ _ Hs).
  destruct Hs as (_ & _ & _ & Hc).
  destruct (after_sidebar_frame inp w) as (_ & _ & _ & _ & Hgc & Hac & _).
  destruct k as [|j]; [lia |]. replace (S j - 1) with j in * by lia.
  destruct (run_reaches E (in_cycles inp) (in_initial_prompt inp)
              (after_sidebar inp w) j Hc) as (p & wj & H & Hcj & Hgj & Haj).
  { unfold cycles_succeed. by rewrite Hgc, Hac. }
  { lia. }
  rewrite (main_game_at_head _ _ _ _ _ _ _ H).
  replace (in_cycles inp - j) with (S (in_cycles inp - S j)) by lia.
  cbn [seq]. rewrite for_cycles_cons.
  destruct Hgen as [Hgen Hget].
  destruct (Hgen p) as (url & Hg). rewrite <- Hgc, <- Hgj in Hg.
  destruct (Hget url) as (img & Hi). rewrite <- Hgc, <- Hgj in Hi.
  pose proof (Hbad url) as Ha. rewrite <- Hac, <- Haj in Ha.
  destruct (cycle_body_ana_fail E (in_cycles inp)
              (run_log_path E (after_sidebar inp w)) (S j) p wj img url
              Hcj Hg Hi Ha) as (v & Hb & _).
  rewrite Hb.
  apply cycle_body_cases in Hb as (Hst & Hfs); [|apply run_log_not_image].
  destruct (main_game_end_run E (run_log_path E (after_sidebar inp w)) v)
    as (w' & He & Hst' & Hlog & _ & Hui).
  exists w', (strftime E (time_time E (clock_reads v))). split; [done |].
  destruct (game_head_inv _ _ _ _ _ _ _ H) as (recs & Hgs & Hlen & I).
  rewrite Hst', Hst, Hgs. cbn. split_and!; try done.
  rewrite Hlog, Hfs by apply run_log_not_image.
  by rewrite (inv_log _ _ _ _ _ _ _ _ _ I).
Qed.

(** ** The claims *)



(** The scenario of the specification, evaluated: three cycles, the
    second and third prompted by the stub's description. *)
Example stub_scenario :
  let r := main E_stub (press_start 3 "a cat wearing a wizard hat") idle_world in
  r.1 = Ok tt ∧
  prompt <$> cycles (game_state r.2) =
    ["a cat wearing a wizard hat"; "a feline in pointed headwear";
     "a feline in pointed headwear"] ∧
  running (game_state r.2) = false.
Proof. vm_compute. by split_and!. Qed.

(** C2. The generation request of cycle [k] raises after [k - 1] good
    cycles.  No record is made for [k], so [k - 1] records remain; but
    the run does not stop in an aborted state: [generate_image] returns
    four values, [main] fails to unpack them, the exception leaves [main]
    and the session stays marked as running. *)
Theorem generation_failure_leaves_session_running
    (E : Env) (inp : Inputs) (w : World) (k : nat) :
  starts_run E inp w →
  1 ≤ k ≤ in_cycles inp →
  cycles_succeed E (k - 1) w →
  gen_raises E (gen_calls w + (k - 1)) →
  ∃ w',
    main E inp w =
      (Raised (ValueError "too many values to unpack (expected 3)"), w') ∧
    List.length (cycles (game_state w')) = k - 1 ∧
    running (game_state w') = true.
Proof.
  intros Hs Hk Hok Hbad.
  destruct (main_gen_raise E inp w k Hs Hk Hok Hbad)
    as (w' & msg & Hm & Hr & Hl & _).
  by exists w'.
Qed.

Lemma generation_failure_leaves_session_running_witness :
  ∃ w',
    main E_generation_down (press_start 3 "a cat wearing a wizard hat")
      idle_world =
      (Raised (ValueError "too many values to unpack (expected 3)"), w') ∧
    List.length (cycles (game_state w')) = 1 - 1 ∧
    running (game_state w') = true.
Proof.
  apply (generation_failure_leaves_session_running E_generation_down
           (press_start 3 "a cat wearing a wizard hat") idle_world 1).
  - unfold starts_run. split_and!; reflexivity.
  - cbn. lia.
  - intros i Hi. cbn in Hi. lia.
  - intros p. by eexists.
Defined.

(** The log of a run that completes all its cycles: the header, the
    blocks of the [N] records in order, and the footer. *)
Lemma completed_run_log (E : Env) (inp : Inputs) (w : World) :
  starts_run E inp w →
  cycles_succeed E (in_cycles inp) w →
  ∃ end_time,
    List.length (cycles (game_state (main E inp w).2)) = in_cycles inp ∧
    fs (main E inp w).2 !! run_log_path E (after_sidebar inp w) =
      Some ((run_header E (in_initial_prompt inp) (after_sidebar inp w)
             +:+ log_blocks (in_cycles inp)
                   (cycles (game_state (main E inp w).2)))
            +:+ log_footer end_time).
Proof.
  intros Hs Hok. rewrite (main_run _ _ _ Hs).
  destruct Hs as (_ & _ & _ & Hc).
  destruct (after_sidebar_frame inp w) as (_ & _ & _ & _ & Hgc & Hac & _).
  destruct (run_reaches E (in_cycles inp) (in_initial_prompt inp)
              (after_sidebar inp w) (in_cycles inp) Hc)
    as (p & wN & H & _).
  { unfold cycles_succeed. by rewrite Hgc, Hac. }
  { lia. }
  rewrite (main_game_at_head _ _ _ _ _ _ _ H), Nat.sub_diag.
  change (for_cycles _ (seq _ 0) p wN) with (@Ok unit tt, wN).
  destruct (main_game_end_run E (run_log_path E (after_sidebar inp w)) wN)
    as (w' & He & Hst & Hlog & _ & _).
  rewrite He. cbn [snd].
  destruct (game_head_inv _ _ _ _ _ _ _ H) as (recs & Hgs & Hlen & I).
  exists (strftime E (time_time E (clock_reads wN))).
  rewrite Hst, Hgs. cbn. split; [done |].
  by rewrite Hlog, (inv_log _ _ _ _ _ _ _ _ _ I).
Qed.

(** C3. The analysis of cycle [k] fails after [k - 1] good cycles.  The
    loop is left by [break], and the code after the loop runs as it does
    after a full run: the log ends up as header, the [k - 1] blocks and
    the footer. *)
Theorem footer_written_after_analysis_failure
    (E : Env) (inp : Inputs) (w : World) (k : nat) :
  starts_run E inp w →
  1 ≤ k ≤ in_cycles inp →
  cycles_succeed E (k - 1) w →
  gen_succeeds E (gen_calls w + (k - 1)) →
  ana_fails_at E (ana_calls w + (k - 1)) →
  ∃ w' end_time,
    main E inp w = (Ok tt, w') ∧
    List.length (cycles (game_state w')) = k - 1 ∧
    fs w' !! run_log_path E (after_sidebar inp w) =
      Some ((run_header E (in_initial_prompt inp) (after_sidebar inp w)
             +:+ log_blocks (in_cycles inp) (cycles (game_state w')))
            +:+ log_footer end_time).
Proof.
  intros Hs Hk Hok Hgen Hbad.
  destruct (main_ana_fail E inp w k Hs Hk Hok Hgen Hbad)
    as (w' & t & Hm & _ & Hl & _ & Hf).
  by exists w', t.
Qed.

Lemma footer_written_after_analysis_failure_witness :
  ∃ w' end_time,
    main E_analysis_fails_second (press_start 3 "a cat wearing a wizard hat")
      idle_world = (Ok tt, w') ∧
    List.length (cycles (game_state w')) = 2 - 1 ∧
    fs w' !! "telephone_game/game_log_1700000000.txt" =
      Some ((log_header "at 1700000001" "a cat wearing a wizard hat"
             +:+ log_blocks 3 (cycles (game_state w')))
            +:+ log_footer end_time).
Proof.
  apply (footer_written_after_analysis_failure E_analysis_fails_second
           (press_start 3 "a cat wearing a wizard hat") idle_world 2).
  - unfold starts_run. split_and!; reflexivity.
  - cbn. lia.
  - intros i Hi. split; [split; intros x; by eexists |].
    intros x. assert (i = 0) as -> by (cbn in Hi; lia). by eexists.
  - split; intros x; by eexists.
  - intros u. exact I.
Defined.

(** C4. A generation request that raises is shown to the user as an
    error, and yet the run ends with an exception that nothing in
    [main] catches. *)
Theorem generation_error_escapes_main
    (E : Env) (inp : Inputs) (w : World) (k : nat) :
  starts_run E inp w →
  1 ≤ k ≤ in_cycles inp →
  cycles_succeed E (k - 1) w →
  gen_raises E (gen_calls w + (k - 1)) →
  (main E inp w).1 =
    Raised (ValueError "too many values to unpack (expected 3)") ∧
  ∃ msg, last (ui (main E inp w).2) =
    Some (StError ("Error generating image: " +:+ msg)).
Proof.
  intros Hs Hk Hok Hbad.
  destruct (main_gen_raise E inp w k Hs Hk Hok Hbad)
    as (w' & msg & Hm & _ & _ & Hui).
  rewrite Hm. split; [done | by exists msg].
Qed.

Lemma generation_error_escapes_main_witness :
  (main E_generation_down (press_start 1 "a cat wearing a wizard hat")
     idle_world).1 =
    Raised (ValueError "too many values to unpack (expected 3)") ∧
  ∃ msg,
    last (ui (main E_generation_down
                (press_start 1 "a cat wearing a wizard hat") idle_world).2) =
    Some (StError ("Error generating image: " +:+ msg)).
Proof.
  apply (generation_error_escapes_main E_generation_down
           (press_start 1 "a cat wearing a wizard hat") idle_world 1).
  - unfold starts_run. split_and!; reflexivity.
  - cbn. lia.
  - intros i Hi. cbn in Hi. lia.
  - intros p. by eexists.
Defined.

(** C5. With no credential, so that [get_client] returns [None],
    pressing start only shows a warning: the session's game state is
    unchanged, no file is created or written, and neither service is
    called. *)
Theorem no_credential_no_run (E : Env) (inp : Inputs) (w : World) :
  in_click inp = ClickStart →
  get_client_of E (after_sidebar inp w) = None →
  ∃ w',
    main E inp w = (Ok tt, w') ∧
    game_state w' = game_state w ∧
    fs w' = fs w ∧
    gen_calls w' = gen_calls w ∧
    ana_calls w' = ana_calls w ∧
    ui w' = ui w ++
      [StWarning "⚠️ Please enter your OpenAI API key in the sidebar to start."].
Proof.
  intros Hclick Hnone. unfold main. rewrite Hclick.
  unfold after_sidebar, get_client_of in Hnone.
  cbv beta iota zeta delta
    [mbind M_bind bind mret M_ret ret modify get get_client get_client_of
     st_warning].
  destruct (nonempty (in_api_key inp));
    cbn [fst snd ss_api_key game_state set_ss_api_key] in *;
    destruct (nonempty (default (API_KEY E) _)); try done;
    by eexists.
Qed.

Lemma no_credential_no_run_witness :
  ∃ w',
    main E_no_key (press_start 3 "a cat wearing a wizard hat") idle_world
      = (Ok tt, w') ∧
    game_state w' = game_state idle_world ∧
    fs w' = fs idle_world ∧
    gen_calls w' = gen_calls idle_world ∧
    ana_calls w' = ana_calls idle_world ∧
    ui w' = ui idle_world ++
      [StWarning "⚠️ Please enter your OpenAI API key in the sidebar to start."].
Proof.
  apply (no_credential_no_run E_no_key
           (press_start 3 "a cat wearing a wizard hat") idle_world);
    reflexivity.
Defined.

(** C6. In every run, when cycle [k] is about to start the session
    holds exactly [k - 1] records, numbered 1 to [k - 1] in order; and
    these records stay, unchanged and in place, at every later loop head
    and in the state the run ends in. *)
Theorem cycles_invariant
    (E : Env) (inp : Inputs) (w : World) (k : nat) (p : string) (wk : World) :
  starts_run E inp w →
  1 ≤ k →
  run_heads E inp w (k - 1) = Some (p, wk) →
  List.length (cycles (game_state wk)) = k - 1 ∧
  cycle <$> cycles (game_state wk) = seq 1 (k - 1) ∧
  (∀ k' p' wk', k ≤ k' → run_heads E inp w (k' - 1) = Some (p', wk') →
     cycles (game_state wk) `prefix_of` cycles (game_state wk')) ∧
  (∀ r wf, main E inp w = (r, wf) →
     cycles (game_state wk) `prefix_of` cycles (game_state wf)).
Proof.
  intros Hs Hk H. unfold run_heads in *.
  destruct (game_head_inv _ _ _ _ _ _ _ H) as (recs & Hgs & Hlen & I).
  split_and!.
  - by rewrite Hgs.
  - rewrite Hgs. apply (inv_index _ _ _ _ _ _ _ _ _ I).
  - intros k' p' wk' Hk' H'.
    replace (k' - 1) with ((k - 1) + (k' - k)) in H' by lia.
    by apply (heads_prefix _ _ _ _ _ _ _ _ _ _ H H').
  - intros r wf Hm. rewrite (main_run _ _ _ Hs) in Hm.
    by destruct (head_kept _ _ _ _ _ _ _ _ _ H Hm).
Qed.

Lemma cycles_invariant_witness :
  match run_heads E_stub (press_start 3 "a cat wearing a wizard hat")
          idle_world (2 - 1) with
  | Some (p, wk) =>
      List.length (cycles (game_state wk)) = 2 - 1 ∧
      cycle <$> cycles (game_state wk) = seq 1 (2 - 1) ∧
      (∀ k' p' wk', 2 ≤ k' →
         run_heads E_stub (press_start 3 "a cat wearing a wizard hat")
           idle_world (k' - 1) = Some (p', wk') →
         cycles (game_state wk) `prefix_of` cycles (game_state wk')) ∧
      (∀ r wf,
         main E_stub (press_start 3 "a cat wearing a wizard hat") idle_world
           = (r, wf) →
         cycles (game_state wk) `prefix_of` cycles (game_state wf))
  | None => False
  end.
Proof.
  destruct (run_heads E_stub (press_start 3 "a cat wearing a wizard hat")
              idle_world (2 - 1)) as [[p wk]|] eqn:H.
  - apply (cycles_invariant E_stub
             (press_start 3 "a cat wearing a wizard hat") idle_world 2 p wk).
    + unfold starts_run. split_and!; reflexivity.
    + lia.
    + exact H.
  - vm_compute in H. discriminate H.
Defined.

(** C7. Each append has reached the log before the run goes on: when
    [k] cycles have completed the file holds the header and the blocks of
    these [k] cycles, and whatever happens afterwards, however the run
    ends, that text stays at the start of the file. *)
Theorem log_written_incrementally
    (E : Env) (inp : Inputs) (w : World) (k : nat) (p : string) (wk : World) :
  starts_run E inp w →
  run_heads E inp w k = Some (p, wk) →
  List.length (cycles (game_state wk)) = k ∧
  fs wk !! run_log_path E (after_sidebar inp w) =
    Some (run_header E (in_initial_prompt inp) (after_sidebar inp w)
          +:+ log_blocks (in_cycles inp) (cycles (game_state wk))) ∧
  (∀ r wf, main E inp w = (r, wf) →
     ∃ rest, fs wf !! run_log_path E (after_sidebar inp w) =
       Some ((run_header E (in_initial_prompt inp) (after_sidebar inp w)
              +:+ log_blocks (in_cycles inp) (cycles (game_state wk)))
             +:+ rest)).
Proof.
  intros Hs H. unfold run_heads in *.
  destruct (game_head_inv _ _ _ _ _ _ _ H) as (recs & Hgs & Hlen & I).
  split_and!.
  - by rewrite Hgs.
  - rewrite Hgs. apply (inv_log _ _ _ _ _ _ _ _ _ I).
  - intros r wf Hm. rewrite (main_run _ _ _ Hs) in Hm.
    by destruct (head_kept _ _ _ _ _ _ _ _ _ H Hm).
Qed.

Lemma log_written_incrementally_witness :
  match run_heads E_analysis_fails_second
          (press_start 3 "a cat wearing a wizard hat") idle_world 1 with
  | Some (p, wk) =>
      List.length (cycles (game_state wk)) = 1 ∧
      fs wk !! "telephone_game/game_log_1700000000.txt" =
        Some (log_header "at 1700000001" "a cat wearing a wizard hat"
              +:+ log_blocks 3 (cycles (game_state wk))) ∧
      (∀ r wf,
         main E_analysis_fails_second (press_start 3 "a cat wearing a wizard hat")
           idle_world = (r, wf) →
         ∃ rest, fs wf !! "telephone_game/game_log_1700000000.txt" =
           Some ((log_header "at 1700000001" "a cat wearing a wizard hat"
                  +:+ log_blocks 3 (cycles (game_state wk)))
                 +:+ rest))
  | None => False
  end.
Proof.
  destruct (run_heads E_analysis_fails_second
              (press_start 3 "a cat wearing a wizard hat") idle_world 1)
    as [[p wk]|] eqn:H.
  - apply (log_written_incrementally E_analysis_fails_second
             (press_start 3 "a cat wearing a wizard hat") idle_world 1 p wk).
    + unfold starts_run. split_and!; reflexivity.
    + exact H.
  - vm_compute in H. discriminate H.
Defined.

(** C8, as the code has it.  Take a run and the next run started in the
    session it left.  Each log is named after the whole second in which
    its run started, so when the two runs start in different seconds the
    names differ and the second run leaves the first run's log as it
    was. *)
Theorem log_names_differ_across_seconds
    (E : Env) (inp1 inp2 : Inputs) (w : World) :
  starts_run E inp1 w →
  starts_run E inp2 (main E inp1 w).2 →
  time_time E (clock_reads w) ≠ time_time E (clock_reads (main E inp1 w).2) →
  ∃ lp1 lp2,
    log_path (game_state (main E inp1 w).2) = Some lp1 ∧
    lp1 = game_log_path_of (time_time E (clock_reads w)) ∧
    log_path (game_state (main E inp2 (main E inp1 w).2).2) = Some lp2 ∧
    lp1 ≠ lp2 ∧
    fs (main E inp2 (main E inp1 w).2).2 !! lp1 = fs (main E inp1 w).2 !! lp1.
Proof.
  intros Hs1 Hs2 Ht.
  destruct (main E inp1 w) as [r1 w1] eqn:H1. cbn [snd] in *.
  destruct (main E inp2 w1) as [r2 w2] eqn:H2. cbn [snd].
  rewrite (main_run _ _ _ Hs1) in H1. rewrite (main_run _ _ _ Hs2) in H2.
  apply main_game_outcome in H1 as [Hl1 _].
  apply main_game_outcome in H2 as [Hl2 Hq2].
  destruct (after_sidebar_frame inp1 w) as (_ & _ & _ & _ & _ & _ & Hc1).
  destruct (after_sidebar_frame inp2 w1) as (_ & Hf & _ & _ & _ & _ & Hc2).
  unfold run_log_path in *. rewrite Hc1 in Hl1. rewrite Hc2 in Hl2, Hq2.
  eexists _, _. split_and!; [exact Hl1 | done | exact Hl2 | |].
  - intros Heq. by apply game_log_path_of_inj in Heq.
  - rewrite Hq2, Hf; [done | |].
    + intros Heq. by apply game_log_path_of_inj in Heq.
    + intros t. apply image_path_not_log.
Qed.

Lemma log_names_differ_across_seconds_witness :
  ∃ lp1 lp2,
    log_path (game_state
      (main E_stub (press_start 1 "a cat wearing a wizard hat") idle_world).2)
      = Some lp1 ∧
    lp1 = game_log_path_of (time_time E_stub (clock_reads idle_world)) ∧
    log_path (game_state
      (main E_stub (press_start 1 "a dog on a skateboard")
         (main E_stub (press_start 1 "a cat wearing a wizard hat")
            idle_world).2).2) = Some lp2 ∧
    lp1 ≠ lp2 ∧
    fs (main E_stub (press_start 1 "a dog on a skateboard")
          (main E_stub (press_start 1 "a cat wearing a wizard hat")
             idle_world).2).2 !! lp1 =
    fs (main E_stub (press_start 1 "a cat wearing a wizard hat")
          idle_world).2 !! lp1.
Proof.
  apply (log_names_differ_across_seconds E_stub
           (press_start 1 "a cat wearing a wizard hat")
           (press_start 1 "a dog on a skateboard") idle_world).
  - unfold starts_run. split_and!; reflexivity.
  - unfold starts_run. split_and!; vm_compute; reflexivity.
  - vm_compute. discriminate.
Defined.

(** C8 as stated fails: two one-cycle runs, one straight after the
    other within one second, get the same log name, and the log of the
    first run is replaced by that of the second. *)
Lemma same_second_logs_collide :
  starts_run E_same_second (press_start 1 "a cat wearing a wizard hat")
    idle_world ∧
  starts_run E_same_second (press_start 1 "a dog on a skateboard")
    after_first_run ∧
  log_path (game_state after_first_run) =
    Some "telephone_game/game_log_1700000000.txt" ∧
  log_path (game_state after_second_run) =
    Some "telephone_game/game_log_1700000000.txt" ∧
  fs after_first_run !! "telephone_game/game_log_1700000000.txt" =
    Some (log_header "at 1700000000" "a cat wearing a wizard hat" +:+
          log_block 1 {| cycle := 1; prompt := "a cat wearing a wizard hat";
                         image := "picture at https://images.test/a cat wearing a wizard hat";
                         image_path := "telephone_game/image_1700000000.png";
                         description := "a feline in pointed headwear" |} +:+
          log_footer "at 1700000000") ∧
  fs after_second_run !! "telephone_game/game_log_1700000000.txt" =
    Some (log_header "at 1700000000" "a dog on a skateboard" +:+
          log_block 1 {| cycle := 1; prompt := "a dog on a skateboard";
                         image := "picture at https://images.test/a dog on a skateboard";
                         image_path := "telephone_game/image_1700000000.png";
                         description := "a feline in pointed headwear" |} +:+
          log_footer "at 1700000000").
Proof. unfold starts_run. vm_compute. by split_and!. Qed.

(** A generation step that succeeds saves the picture in the game
    directory, under the name made of the second the clock shows. *)
Lemma generate_image_saves
    (E : Env) (p : string) (w : World) (img : Image) (url : string) :
  has_client E w →
  images_generate E (gen_calls w) p = GenOk url →
  requests_get E (gen_calls w) url = GetOk img →
  ∃ w',
    generate_image E p w =
      (Ok (RetOk img (image_path_of (time_time E (clock_reads w))) url), w') ∧
    fs w' !! image_path_of (time_time E (clock_reads w)) = Some img ∧
    String.prefix "telephone_game/"
      (image_path_of (time_time E (clock_reads w))) = true.
Proof.
  unfold has_client. intros Hc Hg Hi. unfold generate_image. run_monad.
  rewrite Hc; cbn. rewrite Hg; cbn. rewrite Hi; cbn.
  eexists. split_and!; [done | | done].
  cbn. by rewrite lookup_insert_eq.
Qed.

(** *** Pictures of a run *)

Section RunPictures.
Variable E : Env.
Variables (N : nat) (lp : string).
Hypothesis lp_not_image : ∀ t, image_path_of t ≠ lp.
Hypothesis clock_ok : clock_monotone E.

Lemma clock_le (a b : nat) : a ≤ b → (time_time E a ≤ time_time E b)%Z.
Proof.
  induction 1 as [|b _ IH]; [lia |]. etrans; [exact IH | apply clock_ok].
Qed.

(** One iteration, seen from the clock and the pictures: it writes at
    most the picture named after the reading it takes and the log; when
    it continues, that picture is the new record's, and the clock has
    moved on by the reading and, unless the cycle is the last, the
    pause. *)
Lemma cycle_body_picture k p w r w' :
  cycle_body E N lp k p w = (r, w') →
  clock_reads w ≤ clock_reads w' ∧
  (∀ q, q ≠ lp →
        (∀ m, clock_reads w ≤ m < clock_reads w' →
              q ≠ image_path_of (time_time E m)) →
        fs w' !! q = fs w !! q) ∧
  match r with
  | Ok (Continue _) =>
      ∃ c, game_state w' = append_cycle c (game_state w) ∧
           image_path c = image_path_of (time_time E (clock_reads w)) ∧
           fs w' !! image_path c = Some (image c) ∧
           clock_reads w' = (if k <? N then 2 else 1) + clock_reads w
  | _ => game_state w' = game_state w
  end.
Proof.
  unfold cycle_body, generate_image, analyze_image. run_monad.
  destruct (nonempty (default (API_KEY E) (ss_api_key w))) eqn:Hc; cbn.
  2:{ intros ?; simplify_eq; cbn. by split_and!. }
  destruct (images_generate E (gen_calls w) p) as [url|msg] eqn:Hg; cbn.
  2:{ intros ?; simplify_eq; cbn. by split_and!. }
  destruct (requests_get E (gen_calls w) url) as [img|msg] eqn:Hi; cbn.
  2:{ intros ?; simplify_eq; cbn. by split_and!. }
  rewrite Hc; cbn.
  assert (Hframe : ∀ q v,
    (∀ m, clock_reads w ≤ m < S v → q ≠ image_path_of (time_time E m)) →
    clock_reads w ≤ v →
    <[image_path_of (time_time E (clock_reads w)):=img]> (fs w) !! q
    = fs w !! q).
  { intros q v Hq Hv. rewrite lookup_insert_ne; [done |].
    intros Heq. apply (Hq (clock_reads w)); [lia | done]. }
  destruct (chat_create E (ana_calls w) url) as [[d|]|msg] eqn:Ha; cbn.
  2,3: intros ?; simplify_eq; cbn; split_and!; [lia | | done];
    intros q _ Hq; by apply (Hframe q (clock_reads w)).
  destruct (nonempty d) eqn:Hd; [destruct (k <? N) |];
    intros ?; simplify_eq; cbn.
  3:{ split_and!; [lia | | done].
      intros q _ Hq. by apply (Hframe q (clock_reads w)). }
  all: split_and!; [lia | |].
  1,3: intros q Hne Hq; rewrite lookup_insert_ne by done;
    apply (Hframe q (clock_reads w)); [intros m Hm; apply Hq; lia | lia].
  all: eexists {| cycle := k; prompt := p; image := img;
                  image_path := image_path_of (time_time E (clock_reads w));
                  description := d |}; cbn; split_and!; try done.
  all: rewrite lookup_insert_ne
    by (intros Heq; symmetry in Heq; by apply lp_not_image in Heq).
  all: by rewrite lookup_insert_eq.
Qed.

(** The pictures of the records while the loop runs.  If the pictures
    of the records held so far are on disk under names of seconds
    before the clock's next event, and every pause to come lasts, then
    at the end of the loop every record's picture is on disk under its
    own name, no two records share a name, and no file was written but
    the log and pictures named after events of the loop. *)
Lemma for_cycles_pictures n k p w r w' :
  k + n ≤ S N →
  (∀ i, i < n → k + i < N →
     (time_time E (clock_reads w + 2 * i + 1) + 1
      ≤ time_time E (clock_reads w + 2 * i + 2))%Z) →
  Forall (λ c, fs w !! image_path c = Some (image c))
         (cycles (game_state w)) →
  Forall (λ c, ∃ t, image_path c = image_path_of t ∧
                    (0 < n → (t < time_time E (clock_reads w))%Z))
         (cycles (game_state w)) →
  NoDup (image_path <$> cycles (game_state w)) →
  for_cycles (cycle_body E N lp) (seq k n) p w = (r, w') →
  Forall (λ c, fs w' !! image_path c = Some (image c))
         (cycles (game_state w')) ∧
  Forall (λ c, ∃ t, image_path c = image_path_of t)
         (cycles (game_state w')) ∧
  NoDup (image_path <$> cycles (game_state w')) ∧
  clock_reads w ≤ clock_reads w' ∧
  (∀ q, q ≠ lp →
        (∀ m, clock_reads w ≤ m < clock_reads w' →
              q ≠ image_path_of (time_time E m)) →
        fs w' !! q = fs w !! q).
Proof.
  revert k p w. induction n as [|n IH]; intros k p w Hkn Hpause Hfile Hname Hnd H.
  - cbv in H. simplify_eq. split_and!; try done.
    eapply Forall_impl; [exact Hname |]. by intros c (t & ? & _); exists t.
  - cbn [seq] in H. rewrite for_cycles_cons in H.
    assert (Hold : ∀ c, c ∈ cycles (game_state w) →
      image_path c ≠ lp ∧
      image_path c ≠ image_path_of (time_time E (clock_reads w))).
    { intros c Hc. rewrite Forall_forall in Hname.
      destruct (Hname c Hc) as (t & -> & Ht). split; [apply lp_not_image |].
      intros Heq. apply image_path_of_inj in Heq. specialize (Ht ltac:(lia)).
      lia. }
    destruct (cycle_body E N lp k p w) as [[[d|]|e] v] eqn:Hb;
      apply cycle_body_picture in Hb as (Hclk & Hfr & Hr).
    + destruct Hr as (c & Hgs & Hpath & Hpic & Hclk').
      assert (Hkeep : ∀ c0, c0 ∈ cycles (game_state w) →
                fs v !! image_path c0 = fs w !! image_path c0).
      { intros c0 Hc0. destruct (Hold c0 Hc0) as [? Hne].
        apply Hfr; [done |]. intros m Hm Heq.
        rewrite Forall_forall in Hname.
        destruct (Hname c0 Hc0) as (t & Ht & Hlt).
        rewrite Ht in Heq. apply image_path_of_inj in Heq.
        specialize (Hlt ltac:(lia)).
        pose proof (clock_le (clock_reads w) m ltac:(lia)). lia. }
      destruct (IH (S k) d v) as (Hf' & Hn' & Hnd' & Hclk2 & Hfr2).
      * lia.
      * intros i Hi Hki.
        assert (Hlt : Nat.ltb k N = true) by (apply Nat.ltb_lt; lia).
        rewrite Hlt in Hclk'. rewrite Hclk'.
        pose proof (Hpause (S i)) as HP. do 2 discharge_by_lia HP.
        replace (2 + clock_reads w + 2 * i + 1)
          with (clock_reads w + 2 * S i + 1) by lia.
        replace (2 + clock_reads w + 2 * i + 2)
          with (clock_reads w + 2 * S i + 2) by lia.
        exact HP.
      * rewrite Hgs. cbn. apply Forall_app. split.
        -- rewrite Forall_forall in Hfile |- *. intros c0 Hc0.
           rewrite Hkeep by done. by apply Hfile.
        -- by apply Forall_singleton.
      * rewrite Hgs. cbn. apply Forall_app. split.
        -- rewrite Forall_forall in Hname |- *. intros c0 Hc0.
           destruct (Hname c0 Hc0) as (t & Ht & Hlt). exists t.
           split; [done |]. intros Hn. specialize (Hlt ltac:(lia)).
           pose proof (clock_le (clock_reads w) (clock_reads v) Hclk). lia.
        -- apply Forall_singleton. eexists. split; [exact Hpath |].
           intros Hn.
           assert (Hlt : Nat.ltb k N = true) by (apply Nat.ltb_lt; lia).
           rewrite Hlt in Hclk'. rewrite Hclk'.
           pose proof (Hpause 0) as HP. do 2 discharge_by_lia HP.
           replace (clock_reads w + 2 * 0 + 1) with (S (clock_reads w))
             in HP by lia.
           replace (clock_reads w + 2 * 0 + 2) with (2 + clock_reads w)
             in HP by lia.
           pose proof (clock_ok (clock_reads w)). lia.
      * rewrite Hgs. cbn. rewrite fmap_app. cbn.
        apply NoDup_app. split_and!; [done | | apply NoDup_singleton].
        intros x Hx Hx'. apply list_elem_of_singleton in Hx'. subst x.
        apply list_elem_of_fmap in Hx as (c0 & Heq & Hc0).
        destruct (Hold c0 Hc0) as [_ Hne]. rewrite Hpath in Heq. by symmetry in Heq.
      * done.
      * split_and!; try done; [lia |].
        intros q Hne Hq. rewrite Hfr2; [apply Hfr | |]; try done.
        -- intros m Hm. apply Hq. lia.
        -- intros m Hm. apply Hq. lia.
    + simplify_eq. rewrite Hr. split_and!; try done.
      * rewrite Forall_forall in Hfile |- *. intros c0 Hc0.
        rewrite <- (Hfile c0 Hc0). destruct (Hold c0 Hc0) as [? Hne].
        apply Hfr; [done |]. intros m Hm Heq.
        rewrite Forall_forall in Hname.
        destruct (Hname c0 Hc0) as (t & Ht & Hlt).
        rewrite Ht in Heq. apply image_path_of_inj in Heq.
        specialize (Hlt ltac:(lia)).
        pose proof (clock_le (clock_reads w) m ltac:(lia)). lia.
      * eapply Forall_impl; [exact Hname |]. by intros c (t & ? & _); exists t.
    + simplify_eq. rewrite Hr. split_and!; try done.
      * rewrite Forall_forall in Hfile |- *. intros c0 Hc0.
        rewrite <- (Hfile c0 Hc0). destruct (Hold c0 Hc0) as [? Hne].
        apply Hfr; [done |]. intros m Hm Heq.
        rewrite Forall_forall in Hname.
        destruct (Hname c0 Hc0) as (t & Ht & Hlt).
        rewrite Ht in Heq. apply image_path_of_inj in Heq.
        specialize (Hlt ltac:(lia)).
        pose proof (clock_le (clock_reads w) m ltac:(lia)). lia.
      * eapply Forall_impl; [exact Hname |]. by intros c (t & ? & _); exists t.
Qed.

End RunPictures.

Lemma run_clock (E : Env) (p0 lp : string) (w w1 : World) :
  clock_reads (loop_start E p0 w) = clock_reads w + 2 ∧
  clock_reads (main_game_end E lp w1).2 = S (clock_reads w1).
Proof.
  unfold loop_start, main_game_begin, main_game_end. run_monad. split; [lia | done].
Qed.

(** The pauses are where [pause_event] says: in a run started in [w],
    the pause after cycle [i + 1] is the last event of the clock before
    the head of cycle [i + 2]. *)
Lemma pause_before_head (E : Env) (N : nat) (p0 : string) (w : World)
    (i : nat) (p : string) (wj : World) :
  game_heads E N p0 w (S i) = Some (p, wj) →
  S i < N →
  clock_reads wj = S (pause_event w i).
Proof.
  unfold pause_event.
  assert (H : ∀ j q v, game_heads E N p0 w j = Some (q, v) → j < N →
                       clock_reads v = clock_reads w + 2 + 2 * j).
  { induction j as [|j IH]; intros q v Hh Hj.
    - cbn in Hh. injection Hh as _ <-.
      destruct (run_clock E p0 "" w w) as [-> _]. lia.
    - unfold game_heads in *. cbn [loop_head_at] in Hh.
      destruct (loop_head_at E N _ p0 _ j) as [[q' v']|]; [|done].
      destruct (decide (j < N)); [|done].
      destruct (cycle_body E N _ (S j) q' v') as [[[x|]|e] v''] eqn:Hb;
        simplify_eq.
      apply cycle_body_picture in Hb as (_ & _ & c & _ & _ & _ & Hclk);
        [|apply run_log_not_image].
      assert (Hlt : Nat.ltb (S j) N = true) by (apply Nat.ltb_lt; lia).
      rewrite Hlt in Hclk. rewrite Hclk, (IH q' v' eq_refl) by lia. lia. }
  intros Hh Hj. rewrite (H _ _ _ Hh Hj). lia.
Qed.

(** The pictures when the run is over: those of the records are on
    disk, each under its own name and with its own content, and a
    picture file named after a second that the clock did not show during
    the run is left as it was. *)
Lemma run_pictures_kept (E : Env) (inp : Inputs) (w : World) :
  starts_run E inp w →
  clock_monotone E →
  pauses_last E inp w →
  Forall (λ c, fs (main E inp w).2 !! image_path c = Some (image c) ∧
               String.prefix "telephone_game/" (image_path c) = true)
         (cycles (game_state (main E inp w).2)) ∧
  NoDup (image_path <$> cycles (game_state (main E inp w).2)) ∧
  (∀ t, (∀ m, clock_reads w ≤ m < clock_reads (main E inp w).2 →
              time_time E m ≠ t) →
        fs (main E inp w).2 !! image_path_of t = fs w !! image_path_of t).
Proof.
  intros Hs Hmono Hpause. rewrite (main_run _ _ _ Hs), main_game_run.
  destruct (after_sidebar_frame inp w) as (_ & Hfs & _ & _ & _ & _ & Hclk).
  set (ws := after_sidebar inp w) in *.
  set (lp := run_log_path E ws).
  destruct (loop_start_facts E (in_initial_prompt inp) ws)
    as (Hgs & _ & Hq0 & _).
  destruct (run_clock E (in_initial_prompt inp) lp ws ws) as [Hc0 _].
  destruct (for_cycles _ _ _ _) as [r1 w1] eqn:Hloop.
  apply (for_cycles_pictures E (in_cycles inp) lp (run_log_not_image E ws)
           Hmono) in Hloop as (Hfile & Hname & Hnd & Hc1 & Hfr).
  2:{ lia. }
  2:{ intros i _ Hi. rewrite Hc0, Hclk.
      pose proof (Hpause i) as HP. discharge_by_lia HP.
      unfold pause_event in HP.
      replace (clock_reads w + 2 + 2 * i + 1) with (clock_reads w + 3 + 2 * i)
        by lia.
      replace (clock_reads w + 2 + 2 * i + 2)
        with (S (clock_reads w + 3 + 2 * i)) by lia.
      exact HP. }
  2,3,4: rewrite Hgs; cbn; constructor.
  assert (Hfin : ∀ wf,
    cycles (game_state wf) = cycles (game_state w1) →
    clock_reads w1 ≤ clock_reads wf →
    (∀ q, q ≠ lp → fs wf !! q = fs w1 !! q) →
    Forall (λ c, fs wf !! image_path c = Some (image c) ∧
                 String.prefix "telephone_game/" (image_path c) = true)
           (cycles (game_state wf)) ∧
    NoDup (image_path <$> cycles (game_state wf)) ∧
    (∀ t, (∀ m, clock_reads w ≤ m < clock_reads wf → time_time E m ≠ t) →
          fs wf !! image_path_of t = fs w !! image_path_of t)).
  { intros wf Hcs Hc2 Hqf. rewrite Hcs. split_and!; [| done |].
    - rewrite Forall_forall in Hfile, Hname |- *. intros c Hc.
      destruct (Hname c Hc) as (t & Ht). split.
      + rewrite Hqf; [by apply Hfile |]. rewrite Ht. apply image_path_not_log.
      + rewrite Ht. apply image_path_in_dir.
    - intros t Ht.
      rewrite Hqf, Hfr, Hq0, Hfs; try done; try apply image_path_not_log.
      intros m Hm Heq. apply image_path_of_inj in Heq.
      apply (Ht m); [lia | done]. }
  destruct r1 as [[]|e].
  - destruct (main_game_end_run E lp w1) as (w2 & He & Hst & _ & Hq2 & _).
    destruct (run_clock E "" lp w1 w1) as [_ Hc2].
    rewrite He in Hc2 |- *. cbn [snd] in *.
    apply Hfin; [by rewrite Hst | lia | done].
  - cbn [snd]. by apply Hfin.
Qed.

(** A step that returns a picture saved it under the name made of the
    second the clock showed, and wrote no other file. *)
Lemma generate_image_ok
    (E : Env) (p : string) (v v' : World) (img : Image) (path url : string) :
  generate_image E p v = (Ok (RetOk img path url), v') →
  path = image_path_of (time_time E (clock_reads v)) ∧
  fs v' = <[path := img]> (fs v).
Proof.
  unfold generate_image. run_monad.
  destruct (nonempty (default (API_KEY E) (ss_api_key v))); cbn; [|done].
  destruct (images_generate E (gen_calls v) p) as [u|msg]; cbn; [|done].
  destruct (requests_get E (gen_calls v) u) as [i|msg]; cbn; [|done].
  intros ?; by simplify_eq.
Qed.

(** The pictures at a loop head: if the clock never goes back and every
    pause so far lasted, the pictures of the records are on disk under
    names of seconds that are over when the cycle starts. *)
Lemma head_pictures (E : Env) (N : nat) (p0 : string) (w : World) :
  clock_monotone E →
  (∀ i, i + 1 < N →
     (time_time E (pause_event w i) + 1
      ≤ time_time E (S (pause_event w i)))%Z) →
  ∀ j p v,
    game_heads E N p0 w j = Some (p, v) → j < N →
    clock_reads v = clock_reads w + 2 + 2 * j ∧
    Forall (λ c, fs v !! image_path c = Some (image c) ∧
                 ∃ t, image_path c = image_path_of t ∧
                      (t < time_time E (clock_reads v))%Z)
           (cycles (game_state v)).
Proof.
  intros Hmono Hpause. unfold pause_event in Hpause.
  induction j as [|j IH]; intros p v Hh Hj.
  - cbn in Hh. injection Hh as _ <-.
    destruct (run_clock E p0 "" w w) as [-> _].
    destruct (loop_start_facts E p0 w) as (-> & _). cbn.
    split; [lia | constructor].
  - unfold game_heads in *. cbn [loop_head_at] in Hh.
    destruct (loop_head_at E N _ p0 _ j) as [[q' v']|]; [|done].
    destruct (decide (j < N)); [|done].
    destruct (IH q' v' eq_refl ltac:(lia)) as (Hclk0 & Hold).
    destruct (cycle_body E N _ (S j) q' v') as [[[x|]|e] v''] eqn:Hb;
      simplify_eq.
    apply cycle_body_picture in Hb as (Hle & Hfr & c & Hgs & Hpath & Hpic & Hclk);
      [|apply run_log_not_image].
    assert (Hlt : Nat.ltb (S j) N = true) by (apply Nat.ltb_lt; lia).
    rewrite Hlt in Hclk.
    pose proof (Hpause j ltac:(lia)) as HP.
    replace (clock_reads w + 3 + 2 * j) with (S (clock_reads v')) in HP by lia.
    replace (S (S (clock_reads v'))) with (clock_reads v) in HP by lia.
    pose proof (Hmono (clock_reads v')) as HM.
    split; [lia |]. rewrite Hgs. cbn. apply Forall_app. split.
    + rewrite Forall_forall in Hold |- *. intros c0 Hc0.
      destruct (Hold c0 Hc0) as (Hdisk & t & Ht & Hlt0).
      pose proof (clock_le E Hmono (clock_reads v') (clock_reads v) Hle).
      split; [|exists t; split; [done | lia]].
      rewrite <- Hdisk. apply Hfr.
      * rewrite Ht. apply run_log_not_image.
      * intros m Hm Heq. rewrite Ht in Heq. apply image_path_of_inj in Heq.
        pose proof (clock_le E Hmono (clock_reads v') m ltac:(lia)). lia.
    + apply Forall_singleton. split; [done |].
      eexists. split; [exact Hpath | lia].
Qed.




(** C10. Pressing start with an empty prompt does nothing: [main]
    returns normally, the game state, the files, the application log and
    the call counts are as before, and nothing is shown about the prompt
    (the page gains no element, apart from the key warning when there is
    no credential). *)
Theorem empty_prompt_ignored (E : Env) (inp : Inputs) (w : World) :
  in_click inp = ClickStart →
  in_initial_prompt inp = "" →
  ∃ w',
    main E inp w = (Ok tt, w') ∧
    game_state w' = game_state w ∧
    fs w' = fs w ∧
    app_log w' = app_log w ∧
    gen_calls w' = gen_calls w ∧
    ana_calls w' = ana_calls w ∧
    (has_client E (after_sidebar inp w) → ui w' = ui w) ∧
    (¬ has_client E (after_sidebar inp w) → ui w' = ui w ++
      [StWarning "⚠️ Please enter your OpenAI API key in the sidebar to start."]).
Proof.
  intros Hclick Hp. unfold main, has_client, after_sidebar.
  rewrite Hclick, Hp.
  cbv beta iota zeta delta
    [mbind M_bind bind mret M_ret ret modify get get_client get_client_of
     st_warning].
  destruct (nonempty (in_api_key inp));
    cbn [fst snd ss_api_key game_state set_ss_api_key];
    destruct (nonempty (default (API_KEY E) _));
    rewrite ?andb_false_r; eexists; by split_and!.
Qed.

Lemma empty_prompt_ignored_witness :
  ∃ w',
    main E_stub (press_start 3 "") idle_world = (Ok tt, w') ∧
    game_state w' = game_state idle_world ∧
    fs w' = fs idle_world ∧
    app_log w' = app_log idle_world ∧
    gen_calls w' = gen_calls idle_world ∧
    ana_calls w' = ana_calls idle_world ∧
    (has_client E_stub (after_sidebar (press_start 3 "") idle_world) →
       ui w' = ui idle_world) ∧
    (¬ has_client E_stub (after_sidebar (press_start 3 "") idle_world) →
       ui w' = ui idle_world ++
         [StWarning "⚠️ Please enter your OpenAI API key in the sidebar to start."]).
Proof.
  apply (empty_prompt_ignored E_stub (press_start 3 "") idle_world);
    reflexivity.
Defined.

(** * Further properties *)

(** ** The two service wrappers *)

Section Wrappers.
Variable E : Env.

(** X1. [analyze_image] never raises, whatever the service does: it
    returns the description when there is a client and the reply has
    content, and [None] in every other case; it makes one request when
    there is a client and none otherwise.  It adds to the application
    log on every path, and touches neither the session's game state nor
    any other file. *)
Theorem analyze_image_catches (url : string) (w : World) :
  ∃ r w',
    analyze_image E url w = (Ok r, w') ∧
    (∀ d, r = Some d ↔
       has_client E w ∧ chat_create E (ana_calls w) url = AnaOk (Some d)) ∧
    ana_calls w' = (if nonempty (default (API_KEY E) (ss_api_key w))
                    then S (ana_calls w) else ana_calls w) ∧
    game_state w' = game_state w ∧
    fs w' = fs w ∧
    gen_calls w' = gen_calls w ∧
    ∃ recs, recs ≠ [] ∧ app_log w' = app_log w ++ recs.
Proof.
  unfold has_client, analyze_image. run_monad.
  destruct (nonempty (default (API_KEY E) (ss_api_key w))) eqn:Hc; cbn.
  2:{ eexists _, _. split_and!; try done.
      - intros d. split; [done |]. by intros [? _].
      - log_grows. }
  destruct (chat_create E (ana_calls w) url) as [[d|]|msg]; cbn;
    eexists _, _; (split_and!; [done | | done.. |]).
  all: try (intros d'; split; try done; try (by intros [_ ?]);
            try (by intros [= ->]); by intros [_ [= ->]]).
  all: log_grows.
Qed.

(** X2. [generate_image] never raises either.  It returns three
    [None]s exactly when there is no client, and then makes no request;
    when there is a client and the request or the download raises, it
    returns four.  In both cases it has written no file but the
    application log, to which it adds on every path; it never touches
    the session's game state. *)
Theorem generate_image_catches (p : string) (w : World) :
  ∃ r w',
    generate_image E p w = (Ok r, w') ∧
    (r = RetNone3 ↔ ¬ has_client E w) ∧
    (¬ has_client E w → fs w' = fs w ∧ gen_calls w' = gen_calls w) ∧
    (has_client E w → gen_step_fails E (gen_calls w) p →
     r = RetNone4 ∧ fs w' = fs w) ∧
    game_state w' = game_state w ∧
    ∃ recs, recs ≠ [] ∧ app_log w' = app_log w ++ recs.
Proof.
  unfold has_client, gen_step_fails, generate_image. run_monad.
  destruct (nonempty (default (API_KEY E) (ss_api_key w))) eqn:Hc; cbn.
  2:{ eexists _, _. split_and!; try done; try (intuition congruence).
      log_grows. }
  destruct (images_generate E (gen_calls w) p) as [url|msg]; cbn.
  2:{ eexists _, _. split_and!; try done; try (intuition congruence).
      log_grows. }
  destruct (requests_get E (gen_calls w) url) as [img|msg]; cbn.
  2:{ eexists _, _. split_and!; try done; try (intuition congruence).
      log_grows. }
  eexists _, _. split_and!; try done; try (intuition congruence).
  log_grows.
Qed.

End Wrappers.

(** ** What an execution can change *)

Lemma insert_keeps (m : gmap string string) (k q v : string) :
  is_Some (m !! q) → is_Some (<[k:=v]> m !! q).
Proof.
  intros H. destruct (decide (k = q)) as [->|Hne].
  - rewrite lookup_insert_eq. by eexists.
  - by rewrite lookup_insert_ne.
Qed.

Section Effects.
Variable E : Env.

(** The calls, records and files of one iteration: it keeps the stored
    key and every file, and either continues after one request to each
    service and one new record, or ends the loop after at most one
    request to each and no new record. *)
Lemma cycle_body_effects N lp k p w r w' :
  cycle_body E N lp k p w = (r, w') →
  ss_api_key w' = ss_api_key w ∧
  (∀ q, is_Some (fs w !! q) → is_Some (fs w' !! q)) ∧
  match r with
  | Ok (Continue _) =>
      gen_calls w' = S (gen_calls w) ∧ ana_calls w' = S (ana_calls w) ∧
      List.length (cycles (game_state w')) =
        S (List.length (cycles (game_state w)))
  | _ =>
      ∃ g a, gen_calls w' = gen_calls w + g ∧ ana_calls w' = ana_calls w + a ∧
             a ≤ g ∧ g ≤ 1 ∧
             cycles (game_state w') = cycles (game_state w)
  end.
Proof.
  unfold cycle_body, generate_image, analyze_image. run_monad.
  destruct (nonempty (default (API_KEY E) (ss_api_key w))) eqn:Hc; cbn.
  2:{ intros ?; simplify_eq; cbn. split_and!; try done.
      exists 0, 0. split_and!; (done || lia). }
  destruct (images_generate E (gen_calls w) p) as [url|msg] eqn:Hg; cbn.
  2:{ intros ?; simplify_eq; cbn. split_and!; try done.
      exists 1, 0. split_and!; (done || lia). }
  destruct (requests_get E (gen_calls w) url) as [img|msg] eqn:Hi; cbn.
  2:{ intros ?; simplify_eq; cbn. split_and!; try done.
      exists 1, 0. split_and!; (done || lia). }
  rewrite Hc; cbn.
  destruct (chat_create E (ana_calls w) url) as [[d|]|msg] eqn:Ha; cbn.
  2:{ intros ?; simplify_eq; cbn. split_and!; try done.
      - intros q. apply insert_keeps.
      - exists 1, 1. split_and!; (done || lia). }
  2:{ intros ?; simplify_eq; cbn. split_and!; try done.
      - intros q. apply insert_keeps.
      - exists 1, 1. split_and!; (done || lia). }
  destruct (nonempty d) eqn:Hd; [destruct (k <? N) |];
    intros ?; simplify_eq; cbn.
  - split_and!; try done.
    + intros q Hq. by do 2 apply insert_keeps.
    + rewrite length_app. cbn. lia.
  - split_and!; try done.
    + intros q Hq. by do 2 apply insert_keeps.
    + rewrite length_app. cbn. lia.
  - split_and!; try done.
    + intros q. apply insert_keeps.
    + exists 1, 1. split_and!; (done || lia).
Qed.

(** The same for the loop as a whole: with [g] generation requests, [a]
    analysis requests and [c] new records, [c ≤ a ≤ g], at most one
    request per iteration, and at most one request that gave no
    record. *)
Lemma for_cycles_effects N lp range p w r w' :
  for_cycles (cycle_body E N lp) range p w = (r, w') →
  ss_api_key w' = ss_api_key w ∧
  (∀ q, is_Some (fs w !! q) → is_Some (fs w' !! q)) ∧
  ∃ g a c,
    gen_calls w' = gen_calls w + g ∧
    ana_calls w' = ana_calls w + a ∧
    List.length (cycles (game_state w')) =
      List.length (cycles (game_state w)) + c ∧
    c ≤ a ∧ a ≤ g ∧ g ≤ List.length range ∧ g ≤ c + 1.
Proof.
  revert p w. induction range as [|k range IH]; intros p w H.
  - cbv in H. simplify_eq. split_and!; try done.
    exists 0, 0, 0. cbn. split_and!; lia.
  - rewrite for_cycles_cons in H.
    destruct (cycle_body E N lp k p w) as [[[d|]|e] v] eqn:Hb;
      apply cycle_body_effects in Hb as (Hk & Hf & Hr).
    + destruct Hr as (Hg & Ha & Hc).
      destruct (IH _ _ H) as (Hk' & Hf' & g & a & c & Hg' & Ha' & Hc' & ?).
      split_and!; [congruence | by auto |].
      exists (S g), (S a), (S c). cbn. split_and!; lia.
    + destruct Hr as (g & a & Hg & Ha & ? & ? & Hc). simplify_eq.
      split_and!; [done..|].
      exists g, a, 0. cbn. rewrite Hc. split_and!; lia.
    + destruct Hr as (g & a & Hg & Ha & ? & ? & Hc). simplify_eq.
      split_and!; [done..|].
      exists g, a, 0. cbn. rewrite Hc. split_and!; lia.
Qed.

(** The run: the stored key and the files are kept, the records are
    those of this run alone, and the requests are counted as for the
    loop. *)
Lemma main_game_effects N p0 w r wf :
  main_game E N p0 w = (r, wf) →
  ss_api_key wf = ss_api_key w ∧
  (∀ q, is_Some (fs w !! q) → is_Some (fs wf !! q)) ∧
  ∃ g a,
    gen_calls wf = gen_calls w + g ∧
    ana_calls wf = ana_calls w + a ∧
    List.length (cycles (game_state wf)) ≤ a ∧ a ≤ g ∧ g ≤ N ∧
    g ≤ List.length (cycles (game_state wf)) + 1.
Proof.
  rewrite main_game_run. intros Hm.
  destruct (loop_start_facts E p0 w) as (Hgs & Hf & Hq & Hk & Hgc & Hac & _).
  assert (Hgrow : ∀ q, is_Some (fs w !! q) →
                       is_Some (fs (loop_start E p0 w) !! q)).
  { intros q Hs. destruct (decide (q = run_log_path E w)) as [->|Hne].
    - rewrite Hf. by eexists.
    - by rewrite Hq. }
  destruct (for_cycles _ _ _ _) as [r1 w1] eqn:Hloop.
  apply for_cycles_effects in Hloop
    as (Hk1 & Hf1 & g & a & c & Hg1 & Ha1 & Hc1 & ? & ? & Hle & ?).
  rewrite Hgs in Hc1. cbn in Hc1. rewrite length_seq in Hle.
  destruct r1 as [[]|e].
  - revert Hm. unfold main_game_end. run_monad. intros ?; simplify_eq; cbn.
    split_and!; [congruence | |].
    + intros q Hs. apply insert_keeps. auto.
    + exists g, a. split_and!; lia.
  - simplify_eq. split_and!; [congruence | by auto |].
    exists g, a. split_and!; lia.
Qed.

(** The three ways an execution of [main] can go: the clear button, a
    run, or nothing. *)
Lemma main_cases (inp : Inputs) (w : World) :
  (in_click inp = ClickClear ∧
   ∃ w', main E inp w = (Raised RerunException, w') ∧
     game_state w' = fresh_game_state ∧
     fs w' = fs w ∧
     ss_api_key w' = ss_api_key (after_sidebar inp w) ∧
     gen_calls w' = gen_calls w ∧ ana_calls w' = ana_calls w ∧
     ui w' = ui w) ∨
  (starts_run E inp w ∧
   main E inp w =
     main_game E (in_cycles inp) (in_initial_prompt inp) (after_sidebar inp w)) ∨
  (in_click inp ≠ ClickClear ∧ ¬ starts_run E inp w ∧
   ∃ w', main E inp w = (Ok tt, w') ∧
     game_state w' = game_state w ∧
     fs w' = fs w ∧
     ss_api_key w' = ss_api_key (after_sidebar inp w) ∧
     gen_calls w' = gen_calls w ∧ ana_calls w' = ana_calls w ∧
     app_log w' = app_log w ∧
     (has_client E (after_sidebar inp w) → ui w' = ui w)).
Proof.
  destruct (in_click inp) eqn:Hclick.
  2:{ left. split; [done |]. unfold main, after_sidebar. rewrite Hclick.
      cbv beta iota zeta delta
        [mbind M_bind bind mret M_ret ret raise modify logger_info].
      destruct (nonempty (in_api_key inp)); cbn; eexists; by split_and!. }
  2:{ destruct (running (game_state w)) eqn:Hr;
        [|destruct (nonempty (in_initial_prompt inp)) eqn:Hp;
          [destruct (nonempty (default (API_KEY E)
                       (ss_api_key (after_sidebar inp w)))) eqn:Hc|]].
      2:{ right; left.
          assert (Hs : starts_run E inp w) by (by split_and!).
          split; [done | by apply main_run]. }
      all: right; right; split; [done |]; split;
        [unfold starts_run, has_client; intros (_ & ? & ? & ?); congruence |].
      all: unfold main, has_client, after_sidebar in *; rewrite Hclick.
      all: cbv beta iota zeta delta
        [mbind M_bind bind mret M_ret ret modify get get_client get_client_of
         st_warning].
      all: destruct (nonempty (in_api_key inp));
        cbn [fst snd ss_api_key game_state set_ss_api_key] in *;
        rewrite ?Hr, ?Hp, ?Hc; cbn [negb andb];
        try destruct (nonempty (default (API_KEY E) _));
        rewrite ?andb_false_r; eexists; by split_and!. }
  all: right; right; split; [done |]; split;
    [unfold starts_run; intros (? & _); congruence |].
  all: unfold main, has_client, after_sidebar in *; rewrite Hclick.
  all: cbv beta iota zeta delta
    [mbind M_bind bind mret M_ret ret modify get get_client get_client_of
     st_warning].
  all: destruct (nonempty (in_api_key inp));
    cbn [fst snd ss_api_key game_state set_ss_api_key] in *;
    destruct (nonempty (default (API_KEY E) _));
    cbn [andb]; eexists; by split_and!.
Qed.

End Effects.

(** ** Across executions *)

Section Executions.
Variable E : Env.

Lemma after_sidebar_client (inp : Inputs) (w : World) :
  has_client E w → has_client E (after_sidebar inp w).
Proof.
  unfold has_client, after_sidebar.
  by destruct (nonempty (in_api_key inp)) eqn:Hk.
Qed.

(** Whatever an execution does, the key in force afterwards is the one
    the sidebar left. *)
Lemma main_keeps_key (inp : Inputs) (w : World) :
  ss_api_key (main E inp w).2 = ss_api_key (after_sidebar inp w).
Proof.
  destruct (main_cases E inp w)
    as [(_ & w' & -> & _ & _ & Hk & _)|[(_ & ->)|(_ & _ & w' & -> & _ & _ & Hk & _)]];
    try done.
  destruct (main_game _ _ _ _) as [r wf] eqn:Hm.
  by apply main_game_effects in Hm as (Hk & _).
Qed.

End Executions.

(** X4. The clear button ends the execution by a rerun and resets the
    game state, in whatever state the session was.  It calls no service
    and writes no file but one record of the application log.  With a
    credential, the next press of start with a prompt starts a run. *)
Theorem clear_recovers (E : Env) (inpc : Inputs) (w : World) :
  in_click inpc = ClickClear →
  ∃ w',
    main E inpc w = (Raised RerunException, w') ∧
    game_state w' = fresh_game_state ∧
    fs w' = fs w ∧
    app_log w' = app_log w ++ [(INFO, "Clearing game history")] ∧
    gen_calls w' = gen_calls w ∧
    ana_calls w' = ana_calls w ∧
    (∀ inp, has_client E w →
            in_click inp = ClickStart →
            nonempty (in_initial_prompt inp) = true →
            starts_run E inp w').
Proof.
  intros Hclear. unfold main. rewrite Hclear.
  cbv beta iota zeta delta
    [mbind M_bind bind mret M_ret ret raise modify logger_info].
  assert (Hkey : ∀ v, has_client E w →
            ss_api_key v = ss_api_key (after_sidebar inpc w) →
            ∀ inp, has_client E (after_sidebar inp v)).
  { intros v Hc Hk inp. apply after_sidebar_client. unfold has_client.
    rewrite Hk. by apply after_sidebar_client. }
  unfold after_sidebar in Hkey.
  destruct (nonempty (in_api_key inpc)); cbn; eexists;
    (split_and!; [done..|]); intros inp Hc Hstart Hp;
    (split_and!; [done | done | done |]); by apply Hkey.
Qed.

Lemma clear_recovers_witness :
  ∃ w',
    main E_stub press_clear after_crash = (Raised RerunException, w') ∧
    game_state w' = fresh_game_state ∧
    fs w' = fs after_crash ∧
    app_log w' = app_log after_crash ++ [(INFO, "Clearing game history")] ∧
    gen_calls w' = gen_calls after_crash ∧
    ana_calls w' = ana_calls after_crash ∧
    (∀ inp, has_client E_stub after_crash →
            in_click inp = ClickStart →
            nonempty (in_initial_prompt inp) = true →
            starts_run E_stub inp w').
Proof.
  apply (clear_recovers E_stub press_clear after_crash). reflexivity.
Defined.

(** X5. A key typed into the sidebar is the one in force after the
    execution, whatever else the execution does; and a session that has
    a credential keeps one, also when the key field is later left
    empty. *)
Theorem credential_persists (E : Env) (inp : Inputs) (w : World) :
  (nonempty (in_api_key inp) = true →
   get_client_of E (main E inp w).2 = Some (in_api_key inp)) ∧
  (has_client E w → has_client E (main E inp w).2).
Proof.
  pose proof (main_keeps_key E inp w) as Hk.
  unfold get_client_of, has_client. rewrite Hk. split.
  - intros Hn. unfold after_sidebar. rewrite Hn. cbn. by rewrite Hn.
  - apply after_sidebar_client.
Qed.

(** X6. An execution makes at most as many generation requests as the
    cycle count and at most as many analysis requests as generation
    requests; in a run every record took one request of each kind, and
    at most one request gave no record (nothing is retried). *)
Theorem call_budget (E : Env) (inp : Inputs) (w : World) :
  ∃ g a,
    gen_calls (main E inp w).2 = gen_calls w + g ∧
    ana_calls (main E inp w).2 = ana_calls w + a ∧
    a ≤ g ∧ g ≤ in_cycles inp ∧
    (starts_run E inp w →
     List.length (cycles (game_state (main E inp w).2)) ≤ a ∧
     g ≤ List.length (cycles (game_state (main E inp w).2)) + 1).
Proof.
  destruct (after_sidebar_frame inp w) as (_ & _ & _ & _ & Hgc & Hac & _).
  destruct (main_cases E inp w)
    as [(Hcl & w' & -> & _ & _ & _ & Hg & Ha & _)
       |[(_ & ->)|(_ & Hn & w' & -> & _ & _ & _ & Hg & Ha & _)]].
  - exists 0, 0. cbn. split_and!; try lia.
    intros (? & _). congruence.
  - destruct (main_game _ _ _ _) as [r wf] eqn:Hm.
    apply main_game_effects in Hm as (_ & _ & g & a & Hg & Ha & ? & ? & ? & ?).
    exists g, a. cbn. rewrite Hg, Ha, Hgc, Hac. by split_and!.
  - exists 0, 0. cbn. split_and!; try lia. done.
Qed.

(** ** Files *)

Lemma game_log_path_in_dir (t : Z) :
  String.prefix "telephone_game/" (game_log_path_of t) = true.
Proof. reflexivity. Qed.

(** X7. No execution deletes a file, and none changes a file outside
    the game directory other than the application log. *)
Theorem files_kept (E : Env) (inp : Inputs) (w : World) :
  (∀ q, is_Some (fs w !! q) → is_Some (fs (main E inp w).2 !! q)) ∧
  (∀ q, String.prefix "telephone_game/" q = false →
        q ≠ app_log_path →
        fs (main E inp w).2 !! q = fs w !! q).
Proof.
  destruct (after_sidebar_frame inp w) as (_ & Hfs & _).
  destruct (main_cases E inp w)
    as [(_ & w' & -> & _ & Hf & _)
       |[(_ & ->)|(_ & _ & w' & -> & _ & Hf & _)]]; cbn [snd].
  - rewrite Hf. by split.
  - destruct (main_game _ _ _ _) as [r wf] eqn:Hm. cbn [snd].
    pose proof (main_game_effects E _ _ _ _ _ Hm) as (_ & Hgrow & _).
    pose proof (main_game_outcome E _ _ _ _ _ Hm) as (_ & Hframe).
    rewrite Hfs in Hgrow. split; [done |].
    intros q Hq _. rewrite Hframe, Hfs; [done | |].
    + intros ->. unfold run_log_path in Hq.
      by rewrite game_log_path_in_dir in Hq.
    + intros t <-. by rewrite image_path_in_dir in Hq.
  - rewrite Hf. by split.
Qed.

(** ** The results section *)

Section Page.
Variable E : Env.

(** With the session's log on disk the results section draws without
    raising, and changes neither the game state nor a file. *)
Lemma display_results_ok (w : World) :
  log_exists w →
  ∃ els w',
    display_results E w = (Ok els, w') ∧
    game_state w' = game_state w ∧ fs w' = fs w.
Proof.
  intros Hlog. unfold display_results, read_file. run_monad.
  destruct (cycles (game_state w)) as [|c cs]; [by eexists _, _ |].
  destruct (log_path (game_state w)) as [lp|] eqn:Hlp; cbn;
    [|by eexists _, _].
  destruct (nonempty lp); [|by eexists _, _].
  destruct (Hlog lp Hlp) as [text Ht]. rewrite Ht. by eexists _, _.
Qed.

(** A run ends normally or by the failed unpacking, and leaves its log
    on disk. *)
Lemma main_game_ends (N : nat) (p0 : string) (w : World) r wf :
  main_game E N p0 w = (r, wf) →
  log_exists wf ∧
  (r = Ok tt ∨ r = Raised (ValueError "too many values to unpack (expected 3)")).
Proof.
  intros Hm. split.
  - destruct (main_game_outcome E _ _ _ _ _ Hm) as [Hl _].
    assert (H0 : game_heads E N p0 w 0 = Some (p0, loop_start E p0 w))
      by reflexivity.
    destruct (head_kept E _ _ _ _ _ _ _ _ H0 Hm) as (_ & rest & Hf).
    intros lp Hlp. rewrite Hl in Hlp. simplify_eq. by eexists.
  - rewrite main_game_run in Hm.
    destruct (loop_start_facts E p0 w) as (_ & Hf & _).
    destruct (for_cycles _ _ _ _) as [r1 w1] eqn:Hloop.
    destruct (for_cycles_extends E N _ (run_log_not_image E w) _ _ _ _ _ _
                Hf Hloop) as (_ & _ & _ & _ & _ & [->| ->]).
    + destruct (main_game_end_run E (run_log_path E w) w1) as (w2 & He & _).
      rewrite He in Hm. simplify_eq. by left.
    + simplify_eq. by right.
Qed.

End Page.

(** X8. If the log named by the session is on disk before an
    execution whose body returns, it is on disk when the results section
    reads it, so the read for the download button finds its file and the
    page is drawn.  The log is also still on disk after an execution
    that ends by the rerun of the clear button or by the failed
    unpacking in a cycle. *)
Theorem log_on_disk_for_download (E : Env) (inp : Inputs) (w : World) :
  log_exists w →
  (∀ w1, main E inp w = (Ok tt, w1) →
     log_exists w1 ∧
     ∃ els w2, main_page E inp w = (Ok els, w2) ∧ log_exists w2) ∧
  (∀ e w1, main_page E inp w = (Raised e, w1) →
     e = RerunException ∨
     e = ValueError "too many values to unpack (expected 3)" →
     log_exists w1).
Proof.
  intros Hlog.
  destruct (after_sidebar_frame inp w) as (Hgs & Hfs & _).
  assert (Hpres : ∀ r w1, main E inp w = (r, w1) → log_exists w1).
  { intros r w1 Hm.
    destruct (main_cases E inp w)
      as [(_ & w' & Hm' & Hg & _)
         |[(_ & Hm')|(_ & _ & w' & Hm' & Hg & Hf & _)]];
      rewrite Hm' in Hm.
    - simplify_eq. intros lp. by rewrite Hg.
    - by apply main_game_ends in Hm as (Hl & _).
    - simplify_eq. unfold log_exists. by rewrite Hg, Hf. }
  split.
  - intros w1 Hm. pose proof (Hpres _ _ Hm) as H1. split; [done |].
    destruct (display_results_ok E w1 H1) as (els & w2 & Hd & Hg & Hf).
    exists els, w2. split.
    + unfold main_page. cbv [mbind M_bind bind]. by rewrite Hm.
    + unfold log_exists. by rewrite Hg, Hf.
  - intros e w1 Hp _. unfold main_page in Hp. cbv [mbind M_bind bind] in Hp.
    destruct (main E inp w) as [[[]|e'] v] eqn:Hm.
    + pose proof (Hpres _ _ eq_refl) as H1.
      destruct (display_results_ok E v H1) as (els & w2 & Hd & _).
      rewrite Hd in Hp. discriminate Hp.
    + simplify_eq. exact (Hpres _ _ eq_refl).
Qed.

Lemma log_on_disk_for_download_witness :
  (∀ w1, main E_stub (press_start 3 "a cat wearing a wizard hat")
           idle_world = (Ok tt, w1) →
     log_exists w1 ∧
     ∃ els w2, main_page E_stub (press_start 3 "a cat wearing a wizard hat")
                 idle_world = (Ok els, w2) ∧ log_exists w2) ∧
  (∀ e w1, main_page E_stub (press_start 3 "a cat wearing a wizard hat")
             idle_world = (Raised e, w1) →
     e = RerunException ∨
     e = ValueError "too many values to unpack (expected 3)" →
     log_exists w1).
Proof.
  apply (log_on_disk_for_download E_stub
           (press_start 3 "a cat wearing a wizard hat") idle_world).
  intros lp H. cbn in H. discriminate H.
Defined.

(** The state a completed run leaves. *)
Lemma completed_run_state (E : Env) (inp : Inputs) (w : World) :
  starts_run E inp w →
  cycles_succeed E (in_cycles inp) w →
  ∃ w' end_time,
    main E inp w = (Ok tt, w') ∧
    List.length (cycles (game_state w')) = in_cycles inp ∧
    log_path (game_state w') = Some (run_log_path E (after_sidebar inp w)) ∧
    fs w' !! run_log_path E (after_sidebar inp w) =
      Some ((run_header E (in_initial_prompt inp) (after_sidebar inp w)
             +:+ log_blocks (in_cycles inp) (cycles (game_state w')))
            +:+ log_footer end_time).
Proof.
  intros Hs Hok. rewrite (main_run _ _ _ Hs).
  destruct Hs as (_ & _ & _ & Hc).
  destruct (after_sidebar_frame inp w) as (_ & _ & _ & _ & Hgc & Hac & _).
  destruct (run_reaches E (in_cycles inp) (in_initial_prompt inp)
              (after_sidebar inp w) (in_cycles inp) Hc)
    as (p & wN & H & _).
  { unfold cycles_succeed. by rewrite Hgc, Hac. }
  { lia. }
  rewrite (main_game_at_head _ _ _ _ _ _ _ H), Nat.sub_diag.
  change (for_cycles _ (seq _ 0) p wN) with (@Ok unit tt, wN).
  destruct (main_game_end_run E (run_log_path E (after_sidebar inp w)) wN)
    as (w' & He & Hst & Hlog & _ & _).
  destruct (game_head_inv _ _ _ _ _ _ _ H) as (recs & Hgs & Hlen & I).
  exists w', (strftime E (time_time E (clock_reads wN))).
  rewrite Hst, Hgs. cbn. split_and!; try done.
  by rewrite Hlog, (inv_log _ _ _ _ _ _ _ _ _ I).
Qed.

(** X9. After a run that completed its [N ≥ 1] cycles the page shows
    the results heading, one expander per record in order, and a
    download button whose data is the whole log of the run: header, the
    [N] blocks, footer. *)
Theorem results_after_completed_run (E : Env) (inp : Inputs) (w : World) :
  starts_run E inp w →
  cycles_succeed E (in_cycles inp) w →
  1 ≤ in_cycles inp →
  ∃ recs end_time timestamp,
    cycles (game_state (main E inp w).2) = recs ∧
    List.length recs = in_cycles inp ∧
    (main_page E inp w).1 =
      Ok (Markdown "---" :: Header "🎯 Game Results" ::
          (cycle_expander <$> recs) ++
          [DownloadButton "📥 Download Game Log"
             ((run_header E (in_initial_prompt inp) (after_sidebar inp w)
               +:+ log_blocks (in_cycles inp) recs) +:+ log_footer end_time)
             ("telephone_game_" +:+ str_int timestamp +:+ ".txt")
             "text/plain"]).
Proof.
  intros Hs Hok HN.
  destruct (completed_run_state E inp w Hs Hok)
    as (w' & t & Hm & Hlen & Hlp & Hf).
  unfold main_page. cbv [mbind M_bind bind]. rewrite Hm. cbn [snd].
  exists (cycles (game_state w')), t, (time_time E (clock_reads w')).
  split_and!; [done..|].
  unfold display_results, read_file. run_monad.
  destruct (cycles (game_state w')) as [|c cs] eqn:Hcs;
    [cbn in Hlen; lia |].
  rewrite Hlp. cbn [default from_option]. unfold id.
  change (nonempty (run_log_path E (after_sidebar inp w))) with true.
  cbv beta iota. rewrite Hf. reflexivity.
Qed.

Lemma results_after_completed_run_witness :
  ∃ recs end_time timestamp,
    cycles (game_state
      (main E_stub (press_start 3 "a cat wearing a wizard hat")
         idle_world).2) = recs ∧
    List.length recs = 3 ∧
    (main_page E_stub (press_start 3 "a cat wearing a wizard hat")
       idle_world).1 =
      Ok (Markdown "---" :: Header "🎯 Game Results" ::
          (cycle_expander <$> recs) ++
          [DownloadButton "📥 Download Game Log"
             ((log_header "at 1700000001" "a cat wearing a wizard hat"
               +:+ log_blocks 3 recs) +:+ log_footer end_time)
             ("telephone_game_" +:+ str_int timestamp +:+ ".txt")
             "text/plain"]).
Proof.
  apply (results_after_completed_run E_stub
           (press_start 3 "a cat wearing a wizard hat") idle_world).
  - unfold starts_run. split_and!; reflexivity.
  - intros i _. split; [split |]; intros x; by eexists.
  - cbn. lia.
Defined.

(** X10. A run whose first cycle fails at the analysis step leaves a
    log on disk (header and footer), but the results section draws
    nothing: with no record, not even the download of that log is
    offered. *)
Theorem no_results_after_first_cycle_failure
    (E : Env) (inp : Inputs) (w : World) :
  starts_run E inp w →
  1 ≤ in_cycles inp →
  gen_succeeds E (gen_calls w) →
  ana_fails_at E (ana_calls w) →
  (main_page E inp w).1 = Ok [] ∧
  ∃ end_time,
    fs (main_page E inp w).2 !! run_log_path E (after_sidebar inp w) =
      Some (run_header E (in_initial_prompt inp) (after_sidebar inp w)
            +:+ log_footer end_time).
Proof.
  intros Hs HN Hg Ha.
  destruct (main_ana_fail E inp w 1 Hs) as (w' & t & Hm & _ & Hlen & _ & Hf).
  { lia. }
  { intros i Hi. cbn in Hi. lia. }
  { cbn. by rewrite Nat.add_0_r. }
  { cbn. by rewrite Nat.add_0_r. }
  unfold main_page. cbv [mbind M_bind bind]. rewrite Hm.
  unfold display_results. run_monad.
  destruct (cycles (game_state w')) as [|c cs] eqn:Hcs;
    [|cbn in Hlen; lia].
  cbn. split; [done |]. exists t. rewrite Hf. cbn [log_blocks foldr].
  by rewrite string_app_nil_r.
Qed.

Lemma no_results_after_first_cycle_failure_witness :
  (main_page E_no_description (press_start 3 "a cat wearing a wizard hat")
     idle_world).1 = Ok [] ∧
  ∃ end_time,
    fs (main_page E_no_description
          (press_start 3 "a cat wearing a wizard hat") idle_world).2
      !! "telephone_game/game_log_1700000000.txt" =
      Some (log_header "at 1700000001" "a cat wearing a wizard hat"
            +:+ log_footer end_time).
Proof.
  apply (no_results_after_first_cycle_failure E_no_description
           (press_start 3 "a cat wearing a wizard hat") idle_world).
  - unfold starts_run. split_and!; reflexivity.
  - cbn. lia.
  - split; intros x; by eexists.
  - intros u. reflexivity.
Defined.

(** ** Pictures on disk *)

Section Pictures.
Variable E : Env.

Lemma cycle_body_images N lp k p w r w' :
  cycle_body E N lp k p w = (r, w') →
  images_exist w → images_exist w'.
Proof.
  unfold images_exist, cycle_body, generate_image, analyze_image. run_monad.
  destruct (nonempty (default (API_KEY E) (ss_api_key w))) eqn:Hc; cbn.
  2:{ by intros ?; simplify_eq. }
  destruct (images_generate E (gen_calls w) p) as [url|msg] eqn:Hg; cbn.
  2:{ by intros ?; simplify_eq. }
  destruct (requests_get E (gen_calls w) url) as [img|msg] eqn:Hi; cbn.
  2:{ by intros ?; simplify_eq. }
  rewrite Hc; cbn.
  destruct (chat_create E (ana_calls w) url) as [[d|]|msg] eqn:Ha; cbn.
  2,3: intros ? HI; simplify_eq; cbn;
    eapply Forall_impl; [exact HI | intros c; apply insert_keeps].
  destruct (nonempty d) eqn:Hd; [destruct (k <? N) |];
    intros ? HI; simplify_eq; cbn.
  1,2: apply Forall_app; split;
    [eapply Forall_impl; [exact HI |];
     intros c Hx; by do 2 apply insert_keeps
    |apply Forall_singleton; cbn; apply insert_keeps;
     rewrite lookup_insert_eq; by eexists].
  eapply Forall_impl; [exact HI | intros c; apply insert_keeps].
Qed.

Lemma for_cycles_images N lp range p w r w' :
  for_cycles (cycle_body E N lp) range p w = (r, w') →
  images_exist w → images_exist w'.
Proof.
  revert p w. induction range as [|k range IH]; intros p w H HI.
  - cbv in H. by simplify_eq.
  - rewrite for_cycles_cons in H.
    destruct (cycle_body E N lp k p w) as [[[d|]|e] v] eqn:Hb;
      apply cycle_body_images in Hb; try done; simplify_eq; eauto.
Qed.

End Pictures.

(** X11. If the picture file of every record held by the session is on
    disk, the same holds after any execution: a run starts from no
    record, saves the picture of each record before appending it, and no
    file is ever removed. *)
Theorem records_images_on_disk (E : Env) (inp : Inputs) (w : World) :
  images_exist w → images_exist (main E inp w).2.
Proof.
  intros HI.
  destruct (main_cases E inp w)
    as [(_ & w' & -> & Hg & _)
       |[(_ & ->)|(_ & _ & w' & -> & Hg & Hf & _)]]; cbn [snd].
  - unfold images_exist. rewrite Hg. constructor.
  - rewrite main_game_run.
    destruct (loop_start_facts E (in_initial_prompt inp) (after_sidebar inp w))
      as (Hgs & _).
    destruct (for_cycles _ _ _ _) as [r1 w1] eqn:Hloop.
    apply for_cycles_images in Hloop;
      [|unfold images_exist; rewrite Hgs; constructor].
    destruct r1 as [[]|e]; [|done].
    unfold main_game_end. run_monad. cbn.
    eapply Forall_impl; [exact Hloop | intros c; apply insert_keeps].
  - unfold images_exist. by rewrite Hg, Hf.
Qed.

Lemma records_images_on_disk_witness :
  images_exist
    (main E_same_second (press_start 1 "a dog on a skateboard")
       after_first_run).2.
Proof.
  apply (records_images_on_disk E_same_second
           (press_start 1 "a dog on a skateboard") after_first_run).
  unfold images_exist. vm_compute.
  constructor; [by eexists | constructor].
Defined.

(** ** Records and log of any run *)

Section AnyRun.
Variable E : Env.
Variables (N : nat) (lp : string).
Hypothesis lp_not_image : ∀ t, image_path_of t ≠ lp.

(** The records that the iterations [k], [k + 1], ... add, whatever the
    services do, and the text they add to the log. *)
Lemma for_cycles_records n k p w h r w' :
  fs w !! lp = Some h →
  for_cycles (cycle_body E N lp) (seq k n) p w = (r, w') →
  ∃ recs,
    cycles (game_state w') = cycles (game_state w) ++ recs ∧
    running (game_state w') = running (game_state w) ∧
    cycle <$> recs = seq k (List.length recs) ∧
    List.length recs ≤ n ∧
    prompt <$> recs = take (List.length recs) (p :: (description <$> recs)) ∧
    Forall (λ c, nonempty (description c) = true) recs ∧
    fs w' !! lp = Some (h +:+ log_blocks N recs) ∧
    (r = Ok tt ∨
     r = Raised (ValueError "too many values to unpack (expected 3)")).
Proof.
  revert k p w h. induction n as [|n IH]; intros k p w h Hh H.
  - cbv in H. simplify_eq. exists []. cbn.
    rewrite app_nil_r, string_app_nil_r. split_and!; (done || by left).
  - cbn [seq] in H. rewrite for_cycles_cons in H.
    destruct (cycle_body E N lp k p w) as [[[d|]|e] v] eqn:Hb;
      apply cycle_body_cases in Hb; try done.
    + destruct Hb as (Hd & c & Hk & Hp & Hc & R).
      pose proof (rec_log _ _ _ _ _ _ R) as HL. rewrite Hh in HL. cbn in HL.
      destruct (IH _ _ _ _ HL H)
        as (recs & Hcs & Hr & Hi & Hlen & Hpr & Hne & Hf & Ho).
      rewrite (rec_state _ _ _ _ _ _ R) in Hcs, Hr. cbn in Hcs, Hr.
      exists (c :: recs). split_and!; try done.
      * by rewrite Hcs, <- app_assoc.
      * rewrite fmap_cons. cbn [List.length seq]. by rewrite Hk, Hi at 1.
      * cbn. lia.
      * rewrite !fmap_cons. cbn [List.length take].
        by rewrite Hp, Hc, Hpr at 1.
      * constructor; [by rewrite Hc | done].
      * rewrite Hf. cbn [log_blocks foldr]. by rewrite string_app_assoc.
    + destruct Hb as [Hg Hf]. simplify_eq. exists []. cbn.
      rewrite Hg, app_nil_r, string_app_nil_r, Hf by done.
      split_and!; (done || lia || by left).
    + destruct Hb as (-> & Hg & Hf). simplify_eq. exists []. cbn.
      rewrite Hg, app_nil_r, string_app_nil_r, Hf by done.
      split_and!; (done || lia || by right).
Qed.

End AnyRun.

(** The final state of any run, in terms of its records. *)
Lemma run_records (E : Env) (inp : Inputs) (w : World) :
  starts_run E inp w →
  ∃ recs,
    cycles (game_state (main E inp w).2) = recs ∧
    cycle <$> recs = seq 1 (List.length recs) ∧
    List.length recs ≤ in_cycles inp ∧
    prompt <$> recs =
      take (List.length recs) (in_initial_prompt inp :: (description <$> recs)) ∧
    Forall (λ c, nonempty (description c) = true) recs ∧
    (((main E inp w).1 = Ok tt ∧
      running (game_state (main E inp w).2) = false ∧
      ∃ end_time,
        fs (main E inp w).2 !! run_log_path E (after_sidebar inp w) =
          Some ((run_header E (in_initial_prompt inp) (after_sidebar inp w)
                 +:+ log_blocks (in_cycles inp) recs) +:+ log_footer end_time)) ∨
     ((main E inp w).1 =
        Raised (ValueError "too many values to unpack (expected 3)") ∧
      running (game_state (main E inp w).2) = true ∧
      fs (main E inp w).2 !! run_log_path E (after_sidebar inp w) =
        Some (run_header E (in_initial_prompt inp) (after_sidebar inp w)
              +:+ log_blocks (in_cycles inp) recs))).
Proof.
  intros Hs. rewrite (main_run _ _ _ Hs), main_game_run.
  destruct (loop_start_facts E (in_initial_prompt inp) (after_sidebar inp w))
    as (Hgs & Hf & _).
  destruct (for_cycles _ _ _ _) as [r1 w1] eqn:Hloop.
  destruct (for_cycles_records E _ _ (run_log_not_image E _) _ _ _ _ _ _ _
              Hf Hloop)
    as (recs & Hcs & Hr & Hi & Hlen & Hp & Hne & Hlog & Ho).
  rewrite Hgs in Hcs, Hr. cbn in Hcs, Hr.
  exists recs. destruct Ho as [-> | ->].
  - destruct (main_game_end_run E (run_log_path E (after_sidebar inp w)) w1)
      as (w2 & He & Hst & Hl & _ & _).
    rewrite He. cbn [fst snd]. rewrite Hst. cbn.
    split_and!; try done. left. split_and!; try done.
    eexists. by rewrite Hl, Hlog.
  - cbn [fst snd]. split_and!; try done. right. by split_and!.
Qed.



(** X13. In every run, also one that is cut short, the records the
    session ends with are numbered from 1 without gaps, are at most the
    cycle count, have non-empty descriptions, and are threaded: the
    first was prompted by the initial prompt and each later one by the
    description before it.  The session is left running exactly when
    [main] raised. *)
Theorem records_of_any_run (E : Env) (inp : Inputs) (w : World) :
  starts_run E inp w →
  cycle <$> cycles (game_state (main E inp w).2) =
    seq 1 (List.length (cycles (game_state (main E inp w).2))) ∧
  List.length (cycles (game_state (main E inp w).2)) ≤ in_cycles inp ∧
  Forall (λ c, description c ≠ "") (cycles (game_state (main E inp w).2)) ∧
  (∀ c, cycles (game_state (main E inp w).2) !! 0 = Some c →
        prompt c = in_initial_prompt inp) ∧
  (∀ i c c', cycles (game_state (main E inp w).2) !! i = Some c →
             cycles (game_state (main E inp w).2) !! S i = Some c' →
             prompt c' = description c) ∧
  (running (game_state (main E inp w).2) = true ↔
   (main E inp w).1 =
     Raised (ValueError "too many values to unpack (expected 3)")).
Proof.
  intros Hs.
  destruct (run_records E inp w Hs)
    as (recs & -> & Hi & Hlen & Hp & Hne & Ho).
  apply threaded_lookup in Hp as [Hp0 HpS].
  split_and!; try done.
  - eapply Forall_impl; [exact Hne |].
    intros c Hc Heq. cbv beta in Hc. rewrite Heq in Hc. discriminate Hc.
  - destruct Ho as [(-> & -> & _)|(-> & -> & _)]; by split.
Qed.

Lemma records_of_any_run_witness :
  cycle <$> cycles (game_state after_crash) =
    seq 1 (List.length (cycles (game_state after_crash))) ∧
  List.length (cycles (game_state after_crash)) ≤ 3 ∧
  Forall (λ c, description c ≠ "") (cycles (game_state after_crash)) ∧
  (∀ c, cycles (game_state after_crash) !! 0 = Some c →
        prompt c = "a cat wearing a wizard hat") ∧
  (∀ i c c', cycles (game_state after_crash) !! i = Some c →
             cycles (game_state after_crash) !! S i = Some c' →
             prompt c' = description c) ∧
  (running (game_state after_crash) = true ↔
   (main E_generation_down (press_start 3 "a cat wearing a wizard hat")
      idle_world).1 =
     Raised (ValueError "too many values to unpack (expected 3)")).
Proof.
  apply (records_of_any_run E_generation_down
           (press_start 3 "a cat wearing a wizard hat") idle_world).
  unfold starts_run. split_and!; reflexivity.
Defined.
